(** * claude-code-router: translation, validation, annotation, SSE decoding
      and provider caching, embedded from [formatRequest.ts] and [index.ts]. *)

From Stdlib Require Import List NArith Bool Arith Lia String Ascii.
Import ListNotations.

Set Implicit Arguments.

(* ===================================================================== *)
(** * JavaScript strings

    A JavaScript string is a sequence of UTF-16 code units; a code unit is
    an [N] below 65536.  The operations below are the ones the two source
    files call: [===] on strings, [trim], [startsWith], [slice(n)],
    [split('\n')] and truthiness (a string is truthy when it is not
    empty). *)
(* ===================================================================== *)

Definition jsstring := list N.

Definition js (s : string) : jsstring :=
  map N_of_ascii (list_ascii_of_string s).

Fixpoint js_eqb (a b : jsstring) : bool :=
  match a, b with
  | [], [] => true
  | x :: a', y :: b' => N.eqb x y && js_eqb a' b'
  | _, _ => false
  end.

Definition js_truthy (s : jsstring) : bool :=
  match s with [] => false | _ :: _ => true end.

(** White space and line terminators removed by [String.prototype.trim]. *)
Definition is_whitespace (c : N) : bool :=
  ((9 <=? c) && (c <=? 13) || (c =? 32) || (c =? 160) || (c =? 5760)
   || (8192 <=? c) && (c <=? 8202) || (c =? 8232) || (c =? 8233)
   || (c =? 8239) || (c =? 8287) || (c =? 12288) || (c =? 65279))%N.

Fixpoint trimStart (s : jsstring) : jsstring :=
  match s with
  | [] => []
  | c :: r => if is_whitespace c then trimStart r else s
  end.

Definition trimEnd (s : jsstring) : jsstring := rev (trimStart (rev s)).

Definition trim (s : jsstring) : jsstring := trimEnd (trimStart s).

Fixpoint startsWith (s prefix : jsstring) : bool :=
  match prefix, s with
  | [], _ => true
  | p :: prefix', c :: s' => N.eqb c p && startsWith s' prefix'
  | _ :: _, [] => false
  end.

(** [s.slice(n)] for a non-negative [n]. *)
Definition slice (n : nat) (s : jsstring) : jsstring := skipn n s.

Definition newline : N := 10%N.

(** [s.split('\n')]: never empty, the last element is the text after the
    last newline. *)
Fixpoint split_newline (s : jsstring) : list jsstring :=
  match s with
  | [] => [[]]
  | c :: r =>
      if N.eqb c newline then [] :: split_newline r
      else match split_newline r with
           | l :: ls => (c :: l) :: ls
           | [] => [[c]]
           end
  end.

(* ===================================================================== *)
(** * Target (OpenAI) messages *)
(* ===================================================================== *)

(** [{ id, type: "function", function: { name, arguments } }] *)
Record ToolCall := mkToolCall {
  tc_id : jsstring;
  tc_name : jsstring;
  tc_arguments : jsstring
}.

(** A content block [{ type, text, cache_control? }]; [cache_control] is
    the [type] of the marker object when the key is present. *)
Record Block := mkBlock {
  b_type : jsstring;
  b_text : jsstring;
  b_cache_control : option jsstring
}.

Inductive Content :=
| CUndefined
| CNull
| CStr (s : jsstring)
| CBlocks (bs : list Block).

(** One record for every shape of target message: keys that a message
    does not have are [None]. *)
Record Msg := mkMsg {
  role : jsstring;
  content : Content;
  tool_calls : option (list ToolCall);
  tool_call_id : option jsstring
}.

Definition set_tool_calls (m : Msg) (tcs : option (list ToolCall)) : Msg :=
  mkMsg (role m) (content m) tcs (tool_call_id m).

Definition set_content (m : Msg) (c : Content) : Msg :=
  mkMsg (role m) c (tool_calls m) (tool_call_id m).

(** Truthiness of [message.content]: [null], [undefined] and the empty
    string are falsy, arrays are truthy. *)
Definition content_truthy (c : Content) : bool :=
  match c with
  | CUndefined | CNull => false
  | CStr s => js_truthy s
  | CBlocks _ => true
  end.

(** Truthiness of [message.tool_calls]: any array, the empty one too. *)
Definition has_tool_calls (m : Msg) : bool :=
  match tool_calls m with Some _ => true | None => false end.

Definition is_assistant (m : Msg) : bool := js_eqb (role m) (js "assistant").
Definition is_tool (m : Msg) : bool := js_eqb (role m) (js "tool").

(** [toolMsg.tool_call_id === toolCall.id] *)
Definition id_matches (toolMsg : Msg) (toolCall : ToolCall) : bool :=
  match tool_call_id toolMsg with
  | Some t => js_eqb t (tc_id toolCall)
  | None => false
  end.

(* ===================================================================== *)
(** * validateOpenAIToolCalls *)
(* ===================================================================== *)

(** The [while (j < messages.length && messages[j].role === "tool")] scan,
    run on the messages after index [i]. *)
Fixpoint immediateToolMessages (following : list Msg) : list Msg :=
  match following with
  | [] => []
  | m :: rest => if is_tool m then m :: immediateToolMessages rest else []
  end.

Definition hasImmediateToolMessage (immediate : list Msg) (toolCall : ToolCall)
  : bool :=
  existsb (fun toolMsg => id_matches toolMsg toolCall) immediate.

(** [calls.some(toolCall => toolCall.id === currentMessage.tool_call_id)] *)
Definition some_call_matches (calls : list ToolCall) (currentMessage : Msg)
  : bool :=
  existsb (fun toolCall => id_matches currentMessage toolCall) calls.

(** The branch for an assistant message with [tool_calls]. *)
Definition validateAssistant (messages : list Msg) (i : nat)
  (currentMessage : Msg) (calls : list ToolCall) : list Msg :=
  let immediate := immediateToolMessages (skipn (S i) messages) in
  let validToolCalls := filter (hasImmediateToolMessage immediate) calls in
  let currentMessage' :=
    match validToolCalls with
    | _ :: _ => set_tool_calls currentMessage (Some validToolCalls)
    | [] => set_tool_calls currentMessage None
    end in
  if content_truthy (content currentMessage') || has_tool_calls currentMessage'
  then [currentMessage'] else [].

(** The loop [for (let k = i - 1; k >= 0; k--)], entered with [n = k + 1]. *)
Fixpoint scanBack (messages : list Msg) (currentMessage : Msg) (n : nat)
  : bool :=
  match n with
  | 0 => false
  | S k =>
      match nth_error messages k with
      | None => false
      | Some mk =>
          if is_tool mk then scanBack messages currentMessage k
          else match is_assistant mk, tool_calls mk with
               | true, Some calls => some_call_matches calls currentMessage
               | _, _ => false
               end
      end
  end.

(** The value of [hasImmediateToolCall] for the tool message at index [i]. *)
Definition hasImmediateToolCall (messages : list Msg) (i : nat)
  (currentMessage : Msg) : bool :=
  match i with
  | 0 => false
  | S p =>
      match nth_error messages p with
      | None => false
      | Some prevMessage =>
          match is_assistant prevMessage, tool_calls prevMessage with
          | true, Some calls => some_call_matches calls currentMessage
          | _, _ =>
              if is_tool prevMessage then scanBack messages currentMessage (S p)
              else false
          end
      end
  end.

(** What one iteration of the main loop pushes on [validatedMessages]. *)
Definition validateAt (messages : list Msg) (i : nat) : list Msg :=
  match nth_error messages i with
  | None => []
  | Some currentMessage =>
      match is_assistant currentMessage, tool_calls currentMessage with
      | true, Some calls => validateAssistant messages i currentMessage calls
      | _, _ =>
          if is_tool currentMessage then
            if hasImmediateToolCall messages i currentMessage
            then [currentMessage] else []
          else [currentMessage]
      end
  end.

(** [for (let i = 0; i < messages.length; i++)], with [n] iterations left. *)
Fixpoint validateLoop (messages : list Msg) (n i : nat)
  (validatedMessages : list Msg) : list Msg :=
  match n with
  | 0 => validatedMessages
  | S n' =>
      validateLoop messages n' (S i) (validatedMessages ++ validateAt messages i)
  end.

Definition validateOpenAIToolCalls (messages : list Msg) : list Msg :=
  validateLoop messages (List.length messages) 0 [].

(* ===================================================================== *)
(** * formatRequest: source (Anthropic) messages to target messages *)
(* ===================================================================== *)

(** A thrown JavaScript exception; [message] is [error.message]. *)
Record Thrown := mkThrown { thrown_message : jsstring }.

(** The string the source writes as ["\\n"]: the two code units backslash
    and [n], not a line feed. *)
Definition backslash_n : jsstring := [92%N; 110%N].

Definition ephemeral : jsstring := js "ephemeral".

Section Translation.

(** JSON values other than strings are kept abstract, with the builtin
    [JSON.stringify] on them. *)
Variable Json : Type.
Variable JSON_stringify : Json -> jsstring.

(** A value read from the request body where the source tests
    [typeof v === "string"]. *)
Inductive JsValue :=
| VUndefined
| VString (s : jsstring)
| VJson (j : Json).

Inductive ContentPart :=
| PartText (text : JsValue)
| PartToolUse (id name : jsstring) (input : Json)
| PartToolResult (tool_use_id : jsstring) (result : JsValue)
| PartOther (type : jsstring).

(** [JSON.stringify(contentPart)] on a whole content part. *)
Variable JSON_stringify_part : ContentPart -> jsstring.

Inductive SourceContent :=
| SourceString (s : jsstring)
| SourceArray (parts : list ContentPart)
| SourceNeither.

Record SourceMessage := mkSourceMessage {
  src_role : jsstring;
  src_content : SourceContent
}.

(** [typeof text === "string" ? text : JSON.stringify(text)], as the left
    operand of [+ "\\n"] (where [undefined] prints as "undefined"). *)
Definition text_piece (text : JsValue) : jsstring :=
  match text with
  | VString s => s
  | VJson j => JSON_stringify j
  | VUndefined => js "undefined"
  end.

(** [typeof c === "string" ? c : JSON.stringify(c)] as a message content;
    [JSON.stringify(undefined)] is [undefined]. *)
Definition result_content (c : JsValue) : Content :=
  match c with
  | VString s => CStr s
  | VJson j => CStr (JSON_stringify j)
  | VUndefined => CUndefined
  end.

(** The assistant [forEach]: accumulated text and tool calls. *)
Fixpoint assistantParts (parts : list ContentPart)
  (textContent : jsstring) (toolCalls : list ToolCall)
  : jsstring * list ToolCall :=
  match parts with
  | [] => (textContent, toolCalls)
  | PartText text :: rest =>
      assistantParts rest (textContent ++ text_piece text ++ backslash_n)
        toolCalls
  | PartToolUse id name input :: rest =>
      assistantParts rest textContent
        (toolCalls ++ [mkToolCall id name (JSON_stringify input)])
  | _ :: rest => assistantParts rest textContent toolCalls
  end.

(** The user [forEach]: accumulated text and the tool messages. *)
Fixpoint userParts (parts : list ContentPart)
  (userTextMessageContent : jsstring) (subsequentToolMessages : list Msg)
  : jsstring * list Msg :=
  match parts with
  | [] => (userTextMessageContent, subsequentToolMessages)
  | PartText text :: rest =>
      userParts rest (userTextMessageContent ++ text_piece text ++ backslash_n)
        subsequentToolMessages
  | PartToolResult tool_use_id result :: rest =>
      userParts rest userTextMessageContent
        (subsequentToolMessages ++
           [mkMsg (js "tool") (result_content result) None (Some tool_use_id)])
  | _ :: rest => userParts rest userTextMessageContent subsequentToolMessages
  end.

(** The [forEach] of the fallback branch. *)
Fixpoint otherParts (parts : list ContentPart) (combinedContent : jsstring)
  : jsstring :=
  match parts with
  | [] => combinedContent
  | PartText text :: rest =>
      otherParts rest (combinedContent ++ text_piece text ++ backslash_n)
  | part :: rest =>
      otherParts rest
        (combinedContent ++ JSON_stringify_part part ++ backslash_n)
  end.

(** The callback of [messages.flatMap]. *)
Definition translateMessage (anthropicMessage : SourceMessage) : list Msg :=
  match src_content anthropicMessage with
  | SourceString s => [mkMsg (src_role anthropicMessage) (CStr s) None None]
  | SourceNeither => []
  | SourceArray parts =>
      if js_eqb (src_role anthropicMessage) (js "assistant") then
        let '(textContent, toolCalls) := assistantParts parts [] [] in
        let trimmedTextContent := trim textContent in
        let content1 :=
          if js_truthy trimmedTextContent then CStr trimmedTextContent
          else CNull in
        let tool_calls1 :=
          match toolCalls with _ :: _ => Some toolCalls | [] => None end in
        if content_truthy content1
           || match tool_calls1 with
              | Some (_ :: _) => true
              | _ => false
              end
        then [mkMsg (js "assistant") content1 tool_calls1 None]
        else []
      else if js_eqb (src_role anthropicMessage) (js "user") then
        let '(userTextMessageContent, subsequentToolMessages) :=
          userParts parts [] [] in
        let trimmedUserText := trim userTextMessageContent in
        (if js_truthy trimmedUserText
         then [mkMsg (js "user") (CStr trimmedUserText) None None]
         else [])
        ++ subsequentToolMessages
      else
        let trimmedCombinedContent := trim (otherParts parts []) in
        if js_truthy trimmedCombinedContent
        then [mkMsg (src_role anthropicMessage) (CStr trimmedCombinedContent)
                None None]
        else []
  end.

(** [messages.flatMap(...)]; an element that is [null] or [undefined]
    ([None]) makes the callback throw on [anthropicMessage.content]. *)
Fixpoint flatMapMessages (messages : list (option SourceMessage))
  : Thrown + list Msg :=
  match messages with
  | [] => inr []
  | None :: _ =>
      inl (mkThrown (js "Cannot read properties of null (reading 'content')"))
  | Some anthropicMessage :: rest =>
      match flatMapMessages rest with
      | inl e => inl e
      | inr out => inr (translateMessage anthropicMessage ++ out)
      end
  end.

Inductive MessagesField :=
| MessagesNotArray
| MessagesArray (messages : list (option SourceMessage)).

(** [system] is an array of [{ text }] entries or anything else; when the
    key is absent it defaults to the empty array. *)
Inductive SystemField :=
| SystemArray (texts : list jsstring)
| SystemValue (system : jsstring).

Record Body := mkBody {
  model : jsstring;
  messages : MessagesField;
  system : SystemField;
  stream : bool
}.

Definition systemMessage (text : jsstring) : Msg :=
  mkMsg (js "system") (CBlocks [mkBlock (js "text") text (Some ephemeral)])
    None None.

Definition systemMessages (system : SystemField) : list Msg :=
  match system with
  | SystemArray texts => map systemMessage texts
  | SystemValue s => [systemMessage s]
  end.

(** [lastContentBlock.cache_control = {"type": "ephemeral"}] when the last
    block exists and has type text. *)
Definition annotateBlocks (blocks : list Block) : list Block :=
  match rev blocks with
  | [] => blocks
  | lastContentBlock :: before =>
      if js_eqb (b_type lastContentBlock) (js "text")
      then rev before ++
           [mkBlock (b_type lastContentBlock) (b_text lastContentBlock)
              (Some ephemeral)]
      else blocks
  end.

Definition annotateMessage (lastMessage : Msg) : Msg :=
  match content lastMessage with
  | CStr s =>
      set_content lastMessage
        (CBlocks [mkBlock (js "text") s (Some ephemeral)])
  | CBlocks blocks => set_content lastMessage (CBlocks (annotateBlocks blocks))
  | _ => lastMessage
  end.

(** "Add cache_control to the last message". *)
Definition annotateLast (msgs : list Msg) : list Msg :=
  match rev msgs with
  | [] => msgs
  | lastMessage :: before => rev before ++ [annotateMessage lastMessage]
  end.

(** [openAIMessages]: the translation before validation. *)
Definition openAIMessages (body : Body) : Thrown + list Msg :=
  match messages body with
  | MessagesArray l => flatMapMessages l
  | MessagesNotArray => inr []
  end.

(** [data.messages] before the cache annotation. *)
Definition assembledMessages (body : Body) : Thrown + list Msg :=
  match openAIMessages body with
  | inl e => inl e
  | inr translated =>
      inr (systemMessages (system body) ++ validateOpenAIToolCalls translated)
  end.

(** The body of the [try] block: the [messages] that end up in
    [req.body = data]. *)
Definition formatRequestMessages (body : Body) : Thrown + list Msg :=
  match assembledMessages body with
  | inl e => inl e
  | inr msgs => inr (annotateLast msgs)
  end.

End Translation.

(* ===================================================================== *)
(** * TextDecoder: the streaming UTF-8 decoder of the platform

    [new TextDecoder()] followed by [decode(value, { stream: true })] is the
    byte-at-a-time UTF-8 decoder of the Encoding standard: the state
    survives between calls, a malformed sequence yields U+FFFD, and a
    leading byte order mark is removed once.  Bytes are [N] below 256; the
    output is UTF-16 code units. *)
(* ===================================================================== *)

Record TextDecoder := mkTextDecoder {
  code_point : N;
  bytes_seen : N;
  bytes_needed : N;
  lower_boundary : N;
  upper_boundary : N;
  bom_seen : bool
}.

Definition newTextDecoder : TextDecoder := mkTextDecoder 0 0 0 128 191 false.

Definition utf8_reset (d : TextDecoder) : TextDecoder :=
  mkTextDecoder 0 0 0 128 191 (bom_seen d).

Definition in_range (lo hi b : N) : bool := ((lo <=? b) && (b <=? hi))%N.

(** The handler when no continuation byte is awaited. *)
Definition utf8_lead (d : TextDecoder) (byte : N) : list N * TextDecoder :=
  if in_range 0 127 byte then ([byte], d)
  else if in_range 194 223 byte then
    ([], mkTextDecoder (N.land byte 31) 0 1 128 191 (bom_seen d))
  else if in_range 224 239 byte then
    ([], mkTextDecoder (N.land byte 15) 0 2
           (if N.eqb byte 224 then 160 else 128)
           (if N.eqb byte 237 then 159 else 191) (bom_seen d))
  else if in_range 240 244 byte then
    ([], mkTextDecoder (N.land byte 7) 0 3
           (if N.eqb byte 240 then 144 else 128)
           (if N.eqb byte 244 then 143 else 191) (bom_seen d))
  else ([65533%N], d).

(** The handler: code points produced by one byte, and the next state. *)
Definition utf8_handler (d : TextDecoder) (byte : N) : list N * TextDecoder :=
  if N.eqb (bytes_needed d) 0 then utf8_lead d byte
  else if negb (in_range (lower_boundary d) (upper_boundary d) byte) then
    let '(out, d') := utf8_lead (utf8_reset d) byte in (65533%N :: out, d')
  else
    let cp := N.lor (N.shiftl (code_point d) 6) (N.land byte 63) in
    let seen := (bytes_seen d + 1)%N in
    if N.eqb seen (bytes_needed d) then ([cp], utf8_reset d)
    else ([], mkTextDecoder cp seen (bytes_needed d) 128 191 (bom_seen d)).

(** A code point as UTF-16 code units. *)
Definition code_units (cp : N) : jsstring :=
  if (cp <? 65536)%N then [cp]
  else [(55296 + N.shiftr (cp - 65536) 10)%N; (56320 + N.land (cp - 65536) 1023)%N].

(** Serialisation of the produced code points, dropping one leading BOM. *)
Fixpoint serialize (seen : bool) (cps : list N) : jsstring * bool :=
  match cps with
  | [] => ([], seen)
  | cp :: rest =>
      if seen then
        let '(out, seen') := serialize true rest in (code_units cp ++ out, seen')
      else
        let '(out, seen') := serialize true rest in
        (if N.eqb cp 65279 then out else code_units cp ++ out, seen')
  end.

Definition decodeByte (d : TextDecoder) (byte : N) : jsstring * TextDecoder :=
  let '(cps, d') := utf8_handler d byte in
  let '(out, seen') := serialize (bom_seen d') cps in
  (out, mkTextDecoder (code_point d') (bytes_seen d') (bytes_needed d')
          (lower_boundary d') (upper_boundary d') seen').

(** [decoder.decode(value, { stream: true })] *)
Fixpoint decode (d : TextDecoder) (value : list N) : jsstring * TextDecoder :=
  match value with
  | [] => ([], d)
  | byte :: rest =>
      let '(out1, d1) := decodeByte d byte in
      let '(out2, d2) := decode d1 rest in
      (out1 ++ out2, d2)
  end.

(** The UTF-8 bytes of an ASCII literal. *)
Definition ascii_bytes (s : string) : list N :=
  map N_of_ascii (list_ascii_of_string s).

(* ===================================================================== *)
(** * The streaming response decoder of the POST /v1/messages handler *)
(* ===================================================================== *)

Section Decoder.

Variable Json : Type.
(** The builtin [JSON.parse]; [None] when it throws. *)
Variable JSON_parse : jsstring -> option Json.

(** The body of both [for (const line of lines)] loops: what one line
    yields. *)
Definition processLine (line : jsstring) : list Json :=
  if js_truthy (trim line) && startsWith line (js "data: ") then
    let data := trim (slice 6 line) in
    if js_eqb data (js "[DONE]") then []
    else match JSON_parse data with
         | Some parsed => [parsed]
         | None => []
         end
  else [].

Record Reader := mkReader {
  decoder : TextDecoder;
  buffer : jsstring
}.

Definition newReader : Reader := mkReader newTextDecoder [].

(** One [reader.read()] that returns [{ done: false, value }]. *)
Definition onValue (r : Reader) (value : list N) : list Json * Reader :=
  let '(chunk, d') := decode (decoder r) value in
  let buffer1 := buffer r ++ chunk in
  let lines := split_newline buffer1 in
  (flat_map processLine (removelast lines), mkReader d' (last lines [])).

(** [reader.read()] returns [{ done: true }]. *)
Definition onDone (r : Reader) : list Json :=
  if js_truthy (trim (buffer r))
  then flat_map processLine (split_newline (buffer r))
  else [].

(** The [while (true)] loop over the successive reads of the body. *)
Fixpoint readLoop (reads : list (list N)) (r : Reader) : list Json :=
  match reads with
  | [] => onDone r
  | value :: rest =>
      let '(yielded, r') := onValue r value in
      yielded ++ readLoop rest r'
  end.

(** Everything the async iterator yields for a body delivered as
    [reads]. *)
Definition asyncIterator (reads : list (list N)) : list Json :=
  readLoop reads newReader.

End Decoder.

(* ===================================================================== *)
(** * Provider registry and pooled clients ([run], [getProviderInstance]) *)
(* ===================================================================== *)

Record ModelProvider := mkModelProvider {
  name : jsstring;
  api_base_url : jsstring;
  api_key : jsstring;
  models : list jsstring
}.

(** [Map<string, ModelProvider>]: keys in insertion order. *)
Definition ProviderMap := list (jsstring * ModelProvider).

Fixpoint map_get (m : ProviderMap) (k : jsstring) : option ModelProvider :=
  match m with
  | [] => None
  | (k', v) :: rest => if js_eqb k' k then Some v else map_get rest k
  end.

(** [Map.prototype.set]: an existing key keeps its place. *)
Fixpoint map_set (m : ProviderMap) (k : jsstring) (v : ModelProvider)
  : ProviderMap :=
  match m with
  | [] => [(k, v)]
  | (k', v') :: rest =>
      if js_eqb k' k then (k', v) :: rest else (k', v') :: map_set rest k v
  end.

Record Config := mkConfig {
  cfg_Providers : option (list ModelProvider);
  OPENAI_API_KEY : option jsstring;
  OPENAI_BASE_URL : option jsstring;
  OPENAI_MODEL : option jsstring
}.

Definition opt_truthy (v : option jsstring) : bool :=
  match v with Some s => js_truthy s | None => false end.

Definition opt_string (v : option jsstring) : jsstring :=
  match v with Some s => s | None => [] end.

(** [config.Providers.forEach(provider => Providers.set(provider.name, provider))] *)
Definition registerProviders (config : Config) : ProviderMap :=
  match cfg_Providers config with
  | Some providers =>
      fold_left (fun m provider => map_set m (name provider) provider)
        providers []
  | None => []
  end.

(** The registry [Providers] once [run] has registered "default". *)
Definition buildProviders (config : Config) : ProviderMap :=
  let Providers := registerProviders config in
  if opt_truthy (OPENAI_API_KEY config) && opt_truthy (OPENAI_BASE_URL config)
     && opt_truthy (OPENAI_MODEL config)
  then
    map_set Providers (js "default")
      (mkModelProvider (js "default") (opt_string (OPENAI_BASE_URL config))
         (opt_string (OPENAI_API_KEY config))
         [opt_string (OPENAI_MODEL config)])
  else
    match Providers with
    | (_, defaultProvider) :: _ => map_set Providers (js "default") defaultProvider
    | [] => Providers
    end.

(** A constructed [OpenAI] client; [client_id] stands for the identity of
    the object ([new OpenAI] gives a fresh one each time). *)
Record OpenAI := mkOpenAI {
  client_id : nat;
  baseURL : jsstring;
  apiKey : jsstring
}.

(** ** The [lru-cache] package, as the source configures it

    [new LRUCache({ max: 10, ttl: 2 * 60 * 60 * 1000 })].  Entries are kept
    from least to most recently used; [get] of a live entry makes it the
    most recent, [get] of a stale entry deletes it and returns
    [undefined]; [set] evicts the least recently used entry when the cache
    is full.  The age of an entry counts from its [set]; the package
    takes a start time of 0 for "no time to live", so an entry set at
    clock 0 never expires. *)

Record CacheEntry := mkCacheEntry {
  ce_key : jsstring;
  ce_value : OpenAI;
  ce_start : N
}.

Definition LRUCache := list CacheEntry.

Definition lru_max : nat := 10.
Definition lru_ttl : N := (2 * 60 * 60 * 1000)%N.

Definition isStale (now : N) (e : CacheEntry) : bool :=
  (negb (ce_start e =? 0) && (lru_ttl <? now - ce_start e))%N.

Fixpoint lru_find (c : LRUCache) (k : jsstring) : option CacheEntry :=
  match c with
  | [] => None
  | e :: rest => if js_eqb (ce_key e) k then Some e else lru_find rest k
  end.

Definition lru_delete (c : LRUCache) (k : jsstring) : LRUCache :=
  filter (fun e => negb (js_eqb (ce_key e) k)) c.

Definition lru_get (now : N) (c : LRUCache) (k : jsstring)
  : option OpenAI * LRUCache :=
  match lru_find c k with
  | None => (None, c)
  | Some e =>
      if isStale now e then (None, lru_delete c k)
      else (Some (ce_value e), lru_delete c k ++ [e])
  end.

Definition lru_set (now : N) (c : LRUCache) (k : jsstring) (v : OpenAI)
  : LRUCache :=
  match lru_find c k with
  | Some _ => lru_delete c k ++ [mkCacheEntry k v now]
  | None =>
      (if Nat.leb lru_max (List.length c) then tl c else c)
      ++ [mkCacheEntry k v now]
  end.

(** The state shared by the calls of [getProviderInstance]: the cache and
    the number of clients constructed so far. *)
Record ProviderState := mkProviderState {
  providerCache : LRUCache;
  constructed : nat
}.

Definition newProviderState : ProviderState := mkProviderState [] 0.

Definition getProviderInstance (Providers : ProviderMap) (now : N)
  (st : ProviderState) (providerName : jsstring)
  : (Thrown + OpenAI) * ProviderState :=
  match map_get Providers providerName with
  | None =>
      (inl (mkThrown (js "Provider " ++ providerName ++ js " not found")), st)
  | Some provider =>
      match lru_get now (providerCache st) (name provider) with
      | (Some openai, cache') =>
          (inr openai, mkProviderState cache' (constructed st))
      | (None, cache') =>
          let openai :=
            mkOpenAI (constructed st) (api_base_url provider) (api_key provider) in
          (inr openai,
           mkProviderState (lru_set now cache' (name provider) openai)
             (S (constructed st)))
      end
  end.

(* ===================================================================== *)
(** * One request: [formatRequest] then the POST /v1/messages handler

    [streamOpenAIResponse] is the response writer; the model records every
    call of it, in order. *)
(* ===================================================================== *)

(** The chunk the [catch] block of [formatRequest] yields. *)
Record ErrorChunk := mkErrorChunk {
  chunk_id : jsstring;
  chunk_created : N;
  chunk_model : jsstring;
  chunk_object : jsstring;
  chunk_delta_content : jsstring;
  chunk_finish_reason : jsstring
}.

Fixpoint decimal_digits (fuel : nat) (n : N) (acc : jsstring) : jsstring :=
  match fuel with
  | 0 => acc
  | S fuel' =>
      let acc' := (48 + n mod 10)%N :: acc in
      if (n <? 10)%N then acc' else decimal_digits fuel' (n / 10)%N acc'
  end.

(** [`${n}`] for a non-negative integer. *)
Definition decimal (n : N) : jsstring :=
  decimal_digits (S (N.to_nat (N.log2 n))) n [].

Section Request.

Variable Json : Type.
Variable JSON_stringify : Json -> jsstring.
Variable JSON_stringify_part : ContentPart Json -> jsstring.
Variable JSON_parse : jsstring -> option Json.

(** The second argument of [streamOpenAIResponse]. *)
Inductive Completion :=
| ErrorCompletion (events : list ErrorChunk)
| StreamCompletion (events : list Json)
| JsonCompletion (value : Json).

(** One call [streamOpenAIResponse(res, completion, model, req.body)]. *)
Record WriterCall := mkWriterCall {
  w_completion : Completion;
  w_model : jsstring
}.

(** [req.body] after [formatRequest]: [data] when the [try] block ran to
    its end, the inbound body otherwise. *)
Inductive ReqBody :=
| Translated (model : jsstring) (msgs : list Msg) (stream : bool)
| Untranslated (body : Body Json).

Definition req_stream (b : ReqBody) : bool :=
  match b with
  | Translated _ _ s => s
  | Untranslated body => stream body
  end.

Definition req_model (b : ReqBody) : jsstring :=
  match b with
  | Translated m _ _ => m
  | Untranslated body => model body
  end.

Definition errorChunk (now : N) (model : jsstring) (error : Thrown)
  : ErrorChunk :=
  mkErrorChunk (js "error_" ++ decimal now) (now / 1000)%N model
    (js "chat.completion.chunk") (js "Error: " ++ thrown_message error)
    (js "stop").

(** The middleware [formatRequest] at time [now] (milliseconds): the new
    [req.body] and the writer calls it made; [next()] follows in both
    cases. *)
Definition formatRequest (now : N) (body : Body Json)
  : ReqBody * list WriterCall :=
  match formatRequestMessages JSON_stringify JSON_stringify_part body with
  | inr msgs => (Translated (model body) msgs (stream body), [])
  | inl error =>
      (Untranslated body,
       [mkWriterCall (ErrorCompletion [errorChunk now (model body) error])
          (model body)])
  end.

(** What [fetch] resolves to: [response.ok], [response.status], the
    successive reads of [response.body] and the outcome of
    [response.json()]. *)
Record Response := mkResponse {
  ok : bool;
  status : N;
  reads : list (list N);
  json : Thrown + Json
}.

(** [req.provider || "default"] *)
Definition providerOrDefault (provider : option jsstring) : jsstring :=
  match provider with
  | Some (c :: p) => c :: p
  | _ => js "default"
  end.

(** The handler of [server.app.post("/v1/messages", ...)]: the writer
    calls it makes.  Its [catch] block only logs. *)
Definition postMessages (Providers : ProviderMap) (provider : option jsstring)
  (body : ReqBody) (fetched : Thrown + Response) : list WriterCall :=
  match map_get Providers (providerOrDefault provider) with
  | None => []
  | Some providerConfig =>
      match fetched with
      | inl _ => []
      | inr response =>
          if negb (ok response) then []
          else if req_stream body then
            [mkWriterCall
               (StreamCompletion (asyncIterator JSON_parse (reads response)))
               (req_model body)]
          else
            match json response with
            | inl _ => []
            | inr completion =>
                [mkWriterCall (JsonCompletion completion) (req_model body)]
            end
      end
  end.

(** The calls of [streamOpenAIResponse] during one inbound request. *)
Definition handleRequest (Providers : ProviderMap) (now : N)
  (provider : option jsstring) (body : Body Json)
  (fetched : Thrown + Response) : list WriterCall :=
  let '(body', calls) := formatRequest now body in
  calls ++ postMessages Providers provider body' fetched.

End Request.

(* ===================================================================== *)
(** * formatRequest: the tool declarations *)
(* ===================================================================== *)

Section Tools.

Variable Json : Type.

(** An entry of [tools] in the inbound body. *)
Record ToolDecl := mkToolDecl {
  tool_name : jsstring;
  tool_description : option jsstring;
  tool_input_schema : Json
}.

(** [{ type: "function", function: { name, description, parameters } }] *)
Record FunctionTool := mkFunctionTool {
  fn_name : jsstring;
  fn_description : option jsstring;
  fn_parameters : Json
}.

(** [list.includes(x)] on strings. *)
Definition includes (l : list jsstring) (x : jsstring) : bool :=
  existsb (fun y => js_eqb y x) l.

(** [data.tools]: absent when [tools] is falsy (an array, the empty one
    too, is truthy). *)
Definition formatTools (tools : option (list ToolDecl))
  : option (list FunctionTool) :=
  match tools with
  | None => None
  | Some l =>
      Some (map (fun item =>
                   mkFunctionTool (tool_name item) (tool_description item)
                     (tool_input_schema item))
              (filter (fun tool =>
                         negb (includes [js "StickerRequest"] (tool_name tool)))
                 l))
  end.

End Tools.

Unset Implicit Arguments.

(* ===================================================================== *)
(** * Auxiliary definitions for the statements *)
(* ===================================================================== *)

(** The nearest message before a position that is not a tool message:
    [before] is the list of the messages in front of the position. *)
Definition nearestNonTool (before : list Msg) : option Msg :=
  find (fun m => negb (is_tool m)) (rev before).

(** A tool message is owned by [owner] when [owner] is an assistant message
    with [tool_calls] one of which carries the tool message's id. *)
Definition owner_matches (owner : option Msg) (toolMsg : Msg) : bool :=
  match owner with
  | Some a =>
      match is_assistant a, tool_calls a with
      | true, Some calls => some_call_matches calls toolMsg
      | _, _ => false
      end
  | None => false
  end.

(** The validator as one left-to-right recursion that carries the nearest
    non-tool message seen so far. *)
Fixpoint validateFrom (owner : option Msg) (ms : list Msg) : list Msg :=
  match ms with
  | [] => []
  | m :: rest =>
      match is_assistant m, tool_calls m with
      | true, Some calls =>
          validateAssistant (m :: rest) 0 m calls ++ validateFrom (Some m) rest
      | _, _ =>
          if is_tool m then
            (if owner_matches owner m then [m] else []) ++ validateFrom owner rest
          else m :: validateFrom (Some m) rest
      end
  end.

(** ** Sample messages *)

(** [{ role: "assistant", content: "x", tool_calls: [] }] *)
Definition assistant_empty_calls : Msg :=
  mkMsg (js "assistant") (CStr (js "x")) (Some []) None.

(** [{ role: "assistant", content: null, tool_calls: [] }] *)
Definition assistant_null_empty_calls : Msg :=
  mkMsg (js "assistant") CNull (Some []) None.

Definition call_t1 : ToolCall := mkToolCall (js "t1") (js "f") (js "{}").

(** [{ role: "assistant", content: null, tool_calls: [t1] }] *)
Definition assistant_t1 : Msg :=
  mkMsg (js "assistant") CNull (Some [call_t1]) None.

(** [{ role: "tool", tool_call_id: "t1", content: "ok" }] *)
Definition tool_t1 : Msg :=
  mkMsg (js "tool") (CStr (js "ok")) None (Some (js "t1")).

(** ** Cache markers in a target list *)

Definition blocks_of (m : Msg) : list Block :=
  match content m with
  | CBlocks bs => bs
  | _ => []
  end.

(** [Array.isArray(message.content)] *)
Definition content_is_array (m : Msg) : bool :=
  match content m with
  | CBlocks _ => true
  | _ => false
  end.

(** The block carries a [cache_control] key. *)
Definition marked (b : Block) : bool :=
  match b_cache_control b with Some _ => true | None => false end.

(** Number of content blocks of the list that carry a marker. *)
Definition markedBlocks (msgs : list Msg) : nat :=
  List.length (filter marked (flat_map blocks_of msgs)).

(** An assistant message has something to say: a truthy content or at
    least one tool call. *)
Definition assistant_nonempty (m : Msg) : bool :=
  content_truthy (content m)
  || match tool_calls m with Some (_ :: _) => true | _ => false end.

(** ** A concrete instance of the JSON parameters

    The text [{"a":1}], and a [JSON.parse] that accepts this text only;
    it is used where a statement needs closed data. *)

Definition double_quote : N := 34%N.

Definition payload_a1 : jsstring :=
  js "{" ++ [double_quote] ++ js "a" ++ [double_quote] ++ js ":1}".

Inductive SampleJson := ObjectA1.

Definition sample_stringify (j : SampleJson) : jsstring := payload_a1.

Definition sample_stringify_part (p : ContentPart SampleJson) : jsstring :=
  js "{}".

Definition sample_parse (s : jsstring) : option SampleJson :=
  if js_eqb s payload_a1 then Some ObjectA1 else None.

(** ** Sample request bodies *)

(** [messages: [{role:"user", content:[{type:"text", text:"Hi"}]}]],
    [system: "You are helpful"]. *)
Definition body_hi (Json : Type) (model : jsstring) (stream : bool) : Body Json :=
  mkBody model
    (MessagesArray
       [Some (mkSourceMessage (js "user")
                (SourceArray [PartText (VString Json (js "Hi"))]))])
    (SystemValue (js "You are helpful")) stream.

(** Two messages [{role:"assistant", content: s}] with [s] the empty string. *)
Definition body_empty_assistants (Json : Type) (system : SystemField)
  : Body Json :=
  mkBody (js "m")
    (MessagesArray
       [Some (mkSourceMessage (js "assistant") (SourceString Json []));
        Some (mkSourceMessage (js "assistant") (SourceString Json []))])
    system false.

(** The target message [{role:"assistant", content: s}], [s] the empty string. *)
Definition empty_assistant : Msg := mkMsg (js "assistant") (CStr []) None None.

(** [messages: []], [system: "S"]. *)
Definition body_system_only : Body SampleJson :=
  mkBody (js "m") (MessagesArray []) (SystemValue (js "S")) false.

(** An assistant [tool_use] answered by a [tool_result] without content. *)
Definition body_result_without_content : Body SampleJson :=
  mkBody (js "m")
    (MessagesArray
       [Some (mkSourceMessage (js "assistant")
                (SourceArray [PartToolUse (js "t1") (js "f") ObjectA1]));
        Some (mkSourceMessage (js "user")
                (SourceArray [PartToolResult (js "t1") (VUndefined SampleJson)]))])
    (SystemArray []) false.

(** ** The line rule as the specification words it

    Trim the line; when the trimmed line starts with [data: ], strip the
    prefix and trim again; a payload equal to [[DONE]] yields nothing;
    otherwise the payload is parsed and the parsed value, if any, is
    yielded. *)
Definition claimedProcessLine (Json : Type)
  (JSON_parse : jsstring -> option Json) (line : jsstring) : list Json :=
  let trimmed := trim line in
  let payload :=
    if startsWith trimmed (js "data: ") then trim (slice 6 trimmed)
    else trimmed in
  if js_eqb payload (js "[DONE]") then []
  else match JSON_parse payload with
       | Some parsed => [parsed]
       | None => []
       end.

(** The bytes of the line [data: {"a":1}], without and with its newline. *)
Definition line_a1 : list N := ascii_bytes "data: " ++ payload_a1.
Definition line_a1_newline : list N := line_a1 ++ [newline].

(** The same line behind one space. *)
Definition indented_line_a1 : jsstring := js " data: " ++ payload_a1.

(** ** The provider cache seen from outside *)

Definition cache_keys (c : LRUCache) : list jsstring := map ce_key c.

Definition key_in (k : jsstring) (keys : list jsstring) : bool :=
  existsb (js_eqb k) keys.

(** The least-recently-used discipline on keys alone, oldest use first:
    a used key goes to the end; a new key on a full list drives out the
    first one. *)
Definition lru_touch (keys : list jsstring) (k : jsstring) : list jsstring :=
  if key_in k keys
  then filter (fun k' => negb (js_eqb k' k)) keys ++ [k]
  else (if Nat.leb lru_max (List.length keys) then tl keys else keys) ++ [k].

(** A sequence of calls of [getProviderInstance], each at its time. *)
Fixpoint callAll (Providers : ProviderMap) (st : ProviderState)
  (calls : list (N * jsstring)) : ProviderState :=
  match calls with
  | [] => st
  | (now, providerName) :: rest =>
      callAll Providers (snd (getProviderInstance Providers now st providerName))
        rest
  end.

(** Eleven providers [p0] ... [p10]. *)
Definition provider_n (n : N) : ModelProvider :=
  mkModelProvider (js "p" ++ decimal n) (js "https://host/" ++ decimal n)
    (js "key") [].

Definition eleven_config : Config :=
  mkConfig (Some (map provider_n [0; 1; 2; 3; 4; 5; 6; 7; 8; 9; 10]%N))
    None None None.

Definition eleven_providers : ProviderMap := buildProviders eleven_config.

(** [messages: [null]]: the translation throws. *)
Definition body_null_message (Json : Type) : Body Json :=
  mkBody (js "m") (MessagesArray [None]) (SystemArray []) false.

(** ** Roles the validator never touches *)

(** The message is neither a tool message nor an assistant message. *)
Definition other_role (m : Msg) : bool :=
  negb (is_tool m) && negb (is_assistant m).

(** ** Content parts, by kind

    The tool calls of the [tool_use] parts, the tool messages of the
    [tool_result] parts and the text of the text parts, each in the order
    of the parts. *)

Definition toolUseCalls (Json : Type) (JSON_stringify : Json -> jsstring)
  (parts : list (ContentPart Json)) : list ToolCall :=
  flat_map
    (fun part =>
       match part with
       | PartToolUse id name input => [mkToolCall id name (JSON_stringify input)]
       | _ => []
       end) parts.

Definition toolResultMessages (Json : Type) (JSON_stringify : Json -> jsstring)
  (parts : list (ContentPart Json)) : list Msg :=
  flat_map
    (fun part =>
       match part with
       | PartToolResult tool_use_id result =>
           [mkMsg (js "tool") (result_content JSON_stringify result) None
              (Some tool_use_id)]
       | _ => []
       end) parts.

Definition textOfParts (Json : Type) (JSON_stringify : Json -> jsstring)
  (parts : list (ContentPart Json)) : jsstring :=
  flat_map
    (fun part =>
       match part with
       | PartText text => text_piece JSON_stringify text ++ backslash_n
       | _ => []
       end) parts.

(** ** What holds of every state of the provider cache *)

(** No name is cached twice, the cache is within its capacity, and every
    cached client was constructed before. *)
Definition cache_ok (st : ProviderState) : Prop :=
  NoDup (cache_keys (providerCache st)) /\
  List.length (providerCache st) <= lru_max /\
  forall e, In e (providerCache st) -> client_id (ce_value e) < constructed st.

(** Every cached client has the base URL and the key of the providers of
    the registry that carry the name it is cached under. *)
Definition clients_match (Providers : ProviderMap) (st : ProviderState) : Prop :=
  forall e k p,
    In e (providerCache st) -> map_get Providers k = Some p ->
    name p = ce_key e ->
    baseURL (ce_value e) = api_base_url p /\ apiKey (ce_value e) = api_key p.

(** ** Bodies made of data lines *)

Definition carriage_return : N := 13%N.

(** The bytes of one line [data: <payload>] with its newline. *)
Definition dataLine (payload : list N) : list N :=
  ascii_bytes "data: " ++ payload ++ [newline].

(** What the payload of a data line yields. *)
Definition payloadEvents (Json : Type) (JSON_parse : jsstring -> option Json)
  (payload : jsstring) : list Json :=
  if js_eqb (trim payload) (js "[DONE]") then []
  else match JSON_parse (trim payload) with
       | Some parsed => [parsed]
       | None => []
       end.

(* ===================================================================== *)
(** * Facts about strings *)
(* ===================================================================== *)

Lemma js_eqb_eq (a b : jsstring) : js_eqb a b = true <-> a = b.
Proof.
  revert b; induction a as [|x a IH]; intros [|y b]; simpl; split;
    try congruence; try reflexivity.
  - intros H. apply andb_true_iff in H as [H1 H2].
    apply N.eqb_eq in H1. apply IH in H2. congruence.
  - intros H. inversion H; subst. rewrite N.eqb_refl. simpl.
    apply IH. reflexivity.
Qed.

Lemma js_eqb_refl (a : jsstring) : js_eqb a a = true.
Proof. apply js_eqb_eq. reflexivity. Qed.

Lemma js_eqb_neq (a b : jsstring) : js_eqb a b = false <-> a <> b.
Proof.
  split.
  - intros H E. apply js_eqb_eq in E. congruence.
  - intros H. destruct (js_eqb a b) eqn:E; [|reflexivity].
    apply js_eqb_eq in E. contradiction.
Qed.

(* ===================================================================== *)
(** * The validator: the loop and the recursion agree *)
(* ===================================================================== *)

Lemma assistant_not_tool (m : Msg) : is_assistant m = true -> is_tool m = false.
Proof.
  unfold is_assistant, is_tool. intros H. apply js_eqb_eq in H.
  rewrite H. reflexivity.
Qed.

Lemma validateLoop_flat_map (messages : list Msg) (n i : nat) (acc : list Msg) :
  validateLoop messages n i acc
  = acc ++ flat_map (validateAt messages) (seq i n).
Proof.
  revert i acc. induction n as [|n IH]; intros i acc; simpl.
  - now rewrite app_nil_r.
  - rewrite IH, <- app_assoc. reflexivity.
Qed.

Lemma validate_flat_map (messages : list Msg) :
  validateOpenAIToolCalls messages
  = flat_map (validateAt messages) (seq 0 (List.length messages)).
Proof. unfold validateOpenAIToolCalls. now rewrite validateLoop_flat_map. Qed.

Lemma nearestNonTool_snoc (before : list Msg) (m : Msg) :
  nearestNonTool (before ++ [m])
  = if is_tool m then nearestNonTool before else Some m.
Proof.
  unfold nearestNonTool. rewrite rev_app_distr. simpl.
  destruct (is_tool m); reflexivity.
Qed.

Lemma firstn_S_nth (A : Type) (l : list A) (k : nat) (x : A) :
  nth_error l k = Some x -> firstn (S k) l = firstn k l ++ [x].
Proof.
  revert k. induction l as [|y l IH]; intros [|k] H; simpl in *;
    try discriminate.
  - now inversion H.
  - f_equal. now apply IH.
Qed.

Lemma scanBack_nearest (messages : list Msg) (cur : Msg) (n : nat) :
  n <= List.length messages ->
  scanBack messages cur n = owner_matches (nearestNonTool (firstn n messages)) cur.
Proof.
  induction n as [|k IH]; intros Hn.
  - reflexivity.
  - simpl scanBack.
    destruct (nth_error messages k) as [mk|] eqn:Hk.
    + rewrite (firstn_S_nth _ _ _ _ Hk), nearestNonTool_snoc.
      destruct (is_tool mk) eqn:Ht.
      * apply IH. lia.
      * reflexivity.
    + apply nth_error_None in Hk. lia.
Qed.

Lemma hasImmediateToolCall_nearest (messages : list Msg) (i : nat) (cur : Msg) :
  i <= List.length messages ->
  hasImmediateToolCall messages i cur
  = owner_matches (nearestNonTool (firstn i messages)) cur.
Proof.
  intros Hi. destruct i as [|p]; [reflexivity|].
  unfold hasImmediateToolCall.
  destruct (nth_error messages p) as [prev|] eqn:Hp.
  - destruct (is_tool prev) eqn:Ht.
    + assert (Ha : is_assistant prev = false).
      { destruct (is_assistant prev) eqn:Ha; [|reflexivity].
        apply assistant_not_tool in Ha. congruence. }
      rewrite Ha. now apply scanBack_nearest.
    + rewrite (firstn_S_nth _ _ _ _ Hp), nearestNonTool_snoc, Ht. simpl.
      destruct (is_assistant prev), (tool_calls prev); reflexivity.
  - apply nth_error_None in Hp. lia.
Qed.

Lemma validateAt_middle (before : list Msg) (m : Msg) (rest : list Msg) :
  validateAt (before ++ m :: rest) (List.length before)
  = match is_assistant m, tool_calls m with
    | true, Some calls => validateAssistant (m :: rest) 0 m calls
    | _, _ =>
        if is_tool m then
          if owner_matches (nearestNonTool before) m then [m] else []
        else [m]
    end.
Proof.
  unfold validateAt.
  rewrite nth_error_app2, Nat.sub_diag by lia. simpl nth_error.
  assert (Hsk : skipn (S (List.length before)) (before ++ m :: rest) = rest).
  { replace (S (List.length before)) with (List.length (before ++ [m]))
      by (rewrite length_app; simpl; lia).
    replace (before ++ m :: rest) with ((before ++ [m]) ++ rest)
      by (rewrite <- app_assoc; reflexivity).
    rewrite skipn_app, skipn_all, Nat.sub_diag. reflexivity. }
  assert (Hfn : firstn (List.length before) (before ++ m :: rest) = before).
  { rewrite firstn_app, firstn_all, Nat.sub_diag. simpl. now rewrite app_nil_r. }
  cbv beta iota.
  rewrite hasImmediateToolCall_nearest, Hfn
    by (rewrite length_app; simpl; lia).
  destruct (is_assistant m), (tool_calls m) as [calls|]; try reflexivity.
  unfold validateAssistant. rewrite Hsk. reflexivity.
Qed.

Lemma validate_from_index (before ms : list Msg) :
  flat_map (validateAt (before ++ ms)) (seq (List.length before) (List.length ms))
  = validateFrom (nearestNonTool before) ms.
Proof.
  revert before. induction ms as [|m rest IH]; intros before; [reflexivity|].
  simpl seq. simpl flat_map. rewrite validateAt_middle.
  specialize (IH (before ++ [m])).
  rewrite <- app_assoc, length_app in IH. simpl in IH.
  rewrite Nat.add_1_r in IH. rewrite IH, nearestNonTool_snoc. simpl.
  destruct (is_assistant m) eqn:Ha, (tool_calls m) as [calls|] eqn:Hc;
    try (destruct (is_tool m) eqn:Ht; reflexivity).
  rewrite (assistant_not_tool _ Ha). reflexivity.
Qed.

Lemma validate_eq_validateFrom (messages : list Msg) :
  validateOpenAIToolCalls messages = validateFrom None messages.
Proof.
  rewrite validate_flat_map. exact (validate_from_index [] messages).
Qed.

(* ===================================================================== *)
(** * The validator run twice *)
(* ===================================================================== *)

Lemma validateAssistant_head (m : Msg) (rest : list Msg) (calls : list ToolCall) :
  validateAssistant (m :: rest) 0 m calls
  = match filter (hasImmediateToolMessage (immediateToolMessages rest)) calls with
    | c :: valid => [set_tool_calls m (Some (c :: valid))]
    | [] => if content_truthy (content m) then [set_tool_calls m None] else []
    end.
Proof.
  unfold validateAssistant. simpl skipn.
  destruct (filter _ calls) as [|c valid]; simpl.
  - rewrite orb_false_r. reflexivity.
  - rewrite orb_true_r. reflexivity.
Qed.

Lemma filter_all_true (A : Type) (f : A -> bool) (l : list A) :
  (forall x, In x l -> f x = true) -> filter f l = l.
Proof.
  induction l as [|x l IH]; intros H; simpl; [reflexivity|].
  rewrite (H x (or_introl eq_refl)). f_equal. apply IH.
  intros y Hy. apply H. now right.
Qed.

Lemma filter_all_false (A : Type) (f : A -> bool) (l : list A) :
  (forall x, In x l -> f x = false) -> filter f l = [].
Proof.
  induction l as [|x l IH]; intros H; simpl; [reflexivity|].
  rewrite (H x (or_introl eq_refl)). apply IH.
  intros y Hy. apply H. now right.
Qed.

(** A tool message of the run owned by [m] makes one call of [m] valid. *)
Lemma owned_tool_valid_call (m t : Msg) (calls : list ToolCall) (run : list Msg) :
  is_assistant m = true -> tool_calls m = Some calls ->
  In t run -> owner_matches (Some m) t = true ->
  exists call, In call (filter (hasImmediateToolMessage run) calls)
               /\ id_matches t call = true.
Proof.
  intros Ha Hc Ht Ho. unfold owner_matches in Ho. rewrite Ha, Hc in Ho.
  unfold some_call_matches in Ho. apply existsb_exists in Ho as [call [Hin Hid]].
  exists call. split; [|exact Hid].
  apply filter_In. split; [exact Hin|].
  unfold hasImmediateToolMessage. apply existsb_exists. now exists t.
Qed.

Lemma no_valid_call_no_owned_tool (m t : Msg) (calls : list ToolCall)
  (run : list Msg) :
  is_assistant m = true -> tool_calls m = Some calls ->
  filter (hasImmediateToolMessage run) calls = [] ->
  In t run -> owner_matches (Some m) t = false.
Proof.
  intros Ha Hc Hf Ht. destruct (owner_matches (Some m) t) eqn:Ho; [|reflexivity].
  destruct (owned_tool_valid_call _ _ _ _ Ha Hc Ht Ho) as [call [Hin _]].
  rewrite Hf in Hin. destruct Hin.
Qed.

(** The tool messages in front of the validated list are the owned ones of
    the run in front of the input. *)
Lemma immediate_validateFrom (owner : option Msg) (ms : list Msg) :
  immediateToolMessages (validateFrom owner ms)
  = filter (owner_matches owner) (immediateToolMessages ms).
Proof.
  revert owner. induction ms as [|m rest IH]; intros owner; [reflexivity|].
  simpl validateFrom.
  destruct (is_assistant m) eqn:Ha, (tool_calls m) as [calls|] eqn:Hc.
  - simpl immediateToolMessages. rewrite (assistant_not_tool _ Ha). simpl.
    rewrite validateAssistant_head.
    destruct (filter _ calls) as [|c valid] eqn:Hf.
    + assert (Hrun : immediateToolMessages (validateFrom (Some m) rest) = []).
      { rewrite IH. apply filter_all_false. intros t Ht.
        now apply (no_valid_call_no_owned_tool _ _ _ _ Ha Hc Hf). }
      destruct (content_truthy (content m)); simpl.
      * unfold is_tool in *. simpl. unfold is_assistant in Ha.
        apply js_eqb_eq in Ha. rewrite Ha. reflexivity.
      * exact Hrun.
    + simpl. unfold is_tool. simpl. unfold is_assistant in Ha.
      apply js_eqb_eq in Ha. rewrite Ha. reflexivity.
  - simpl immediateToolMessages. rewrite (assistant_not_tool _ Ha). simpl.
    rewrite (assistant_not_tool _ Ha). reflexivity.
  - simpl immediateToolMessages. destruct (is_tool m) eqn:Ht; simpl.
    + destruct (owner_matches owner m); simpl; rewrite ?Ht, IH; reflexivity.
    + rewrite Ht. reflexivity.
  - simpl immediateToolMessages. destruct (is_tool m) eqn:Ht; simpl.
    + destruct (owner_matches owner m); simpl; rewrite ?Ht, IH; reflexivity.
    + rewrite Ht. reflexivity.
Qed.

Lemma validateFrom_twice (ms : list Msg) : forall owner owner',
  (forall t, In t (immediateToolMessages ms) ->
             owner_matches owner t = true -> owner_matches owner' t = true) ->
  validateFrom owner' (validateFrom owner ms) = validateFrom owner ms.
Proof.
  induction ms as [|m rest IH]; intros owner owner' Hown; [reflexivity|].
  simpl validateFrom.
  destruct (is_assistant m) eqn:Ha, (tool_calls m) as [calls|] eqn:Hc.
  - (* assistant message with tool_calls *)
    rewrite validateAssistant_head.
    destruct (filter _ calls) as [|c valid] eqn:Hf.
    + assert (Hnone : forall t, In t (immediateToolMessages rest) ->
                                owner_matches (Some m) t = false)
        by (intros t Ht; now apply (no_valid_call_no_owned_tool _ _ _ _ Ha Hc Hf)).
      destruct (content_truthy (content m)) eqn:Hct; simpl app.
      * simpl validateFrom. unfold is_assistant at 1, is_tool at 1. simpl role.
        fold (is_assistant m). fold (is_tool m).
        rewrite Ha, (assistant_not_tool _ Ha). f_equal.
        apply IH. intros t Ht Ho. rewrite (Hnone t Ht) in Ho. discriminate.
      * apply IH. intros t Ht Ho. rewrite (Hnone t Ht) in Ho. discriminate.
    + simpl app. simpl validateFrom. unfold is_assistant at 1. simpl role.
      fold (is_assistant m). rewrite Ha.
      rewrite validateAssistant_head, immediate_validateFrom. simpl content.
      assert (Hkeep : filter (hasImmediateToolMessage
                                (filter (owner_matches (Some m))
                                   (immediateToolMessages rest))) (c :: valid)
                      = c :: valid).
      { apply filter_all_true. intros call Hin. rewrite <- Hf in Hin.
        apply filter_In in Hin as [Hin Hhas].
        unfold hasImmediateToolMessage in *.
        apply existsb_exists in Hhas as [t [Ht Hid]].
        apply existsb_exists. exists t. split; [|exact Hid].
        apply filter_In. split; [exact Ht|].
        unfold owner_matches. rewrite Ha, Hc.
        apply existsb_exists. now exists call. }
      rewrite Hkeep. simpl app. f_equal.
      apply IH. intros t Ht Ho.
      destruct (owned_tool_valid_call _ _ _ _ Ha Hc Ht Ho) as [call [Hin Hid]].
      rewrite Hf in Hin.
      change (owner_matches (Some (set_tool_calls m (Some (c :: valid)))) t)
        with (if is_assistant m then some_call_matches (c :: valid) t else false).
      rewrite Ha. apply existsb_exists. now exists call.
  - (* assistant message without tool_calls *)
    rewrite (assistant_not_tool _ Ha). simpl validateFrom.
    rewrite Ha, Hc, (assistant_not_tool _ Ha). f_equal.
    apply IH. auto.
  - (* role other than assistant, with a tool_calls key *)
    destruct (is_tool m) eqn:Ht.
    + assert (Hrest : validateFrom owner' (validateFrom owner rest)
                      = validateFrom owner rest).
      { apply IH. intros t Hin. apply Hown. simpl. rewrite Ht. now right. }
      destruct (owner_matches owner m) eqn:Ho; simpl app; [|exact Hrest].
      simpl validateFrom. rewrite Ha, Ht.
      assert (Ho' : owner_matches owner' m = true).
      { apply Hown; [|exact Ho]. simpl. rewrite Ht. now left. }
      rewrite Ho'.
      simpl. now rewrite Hrest.
    + simpl validateFrom. rewrite Ha, Ht. f_equal. apply IH. auto.
  - destruct (is_tool m) eqn:Ht.
    + assert (Hrest : validateFrom owner' (validateFrom owner rest)
                      = validateFrom owner rest).
      { apply IH. intros t Hin. apply Hown. simpl. rewrite Ht. now right. }
      destruct (owner_matches owner m) eqn:Ho; simpl app; [|exact Hrest].
      simpl validateFrom. rewrite Ha, Ht.
      assert (Ho' : owner_matches owner' m = true).
      { apply Hown; [|exact Ho]. simpl. rewrite Ht. now left. }
      rewrite Ho'.
      simpl. now rewrite Hrest.
    + simpl validateFrom. rewrite Ha, Ht. f_equal. apply IH. auto.
Qed.

Lemma validate_idempotent (xs : list Msg) :
  validateOpenAIToolCalls (validateOpenAIToolCalls xs) = validateOpenAIToolCalls xs.
Proof.
  rewrite !validate_eq_validateFrom. apply validateFrom_twice. auto.
Qed.

(* ===================================================================== *)
(** * The nearest non-tool message, by positions *)
(* ===================================================================== *)

Lemma tool_not_assistant (m : Msg) : is_tool m = true -> is_assistant m = false.
Proof.
  intros Ht. destruct (is_assistant m) eqn:Ha; [|reflexivity].
  apply assistant_not_tool in Ha. congruence.
Qed.

Lemma nearestNonTool_position (l : list Msg) (a : Msg) :
  nearestNonTool l = Some a <->
  exists k, nth_error l k = Some a /\ is_tool a = false /\
            forall j mj, k < j -> nth_error l j = Some mj -> is_tool mj = true.
Proof.
  induction l as [|x l IH] using rev_ind.
  - split; [discriminate|]. intros [k [H _]]. destruct k; discriminate.
  - rewrite nearestNonTool_snoc. destruct (is_tool x) eqn:Hx.
    + rewrite IH. split.
      * intros [k [Hk [Ha Hafter]]]. exists k.
        assert (Hlt : k < List.length l)
          by (apply nth_error_Some; congruence).
        split; [rewrite nth_error_app1 by exact Hlt; exact Hk|].
        split; [exact Ha|]. intros j mj Hj Hnth.
        destruct (Nat.lt_ge_cases j (List.length l)) as [Hjl|Hjl].
        -- rewrite nth_error_app1 in Hnth by exact Hjl. eauto.
        -- rewrite nth_error_app2 in Hnth by exact Hjl.
           destruct (j - List.length l) as [|d]; simpl in Hnth.
           ++ now inversion Hnth; subst.
           ++ destruct d; discriminate.
      * intros [k [Hk [Ha Hafter]]].
        destruct (Nat.lt_ge_cases k (List.length l)) as [Hkl|Hkl].
        -- exists k. rewrite nth_error_app1 in Hk by exact Hkl.
           split; [exact Hk|]. split; [exact Ha|].
           intros j mj Hj Hnth. apply (Hafter j mj Hj).
           rewrite nth_error_app1; [exact Hnth|].
           apply nth_error_Some. congruence.
        -- rewrite nth_error_app2 in Hk by exact Hkl.
           destruct (k - List.length l) as [|d]; simpl in Hk.
           ++ inversion Hk; subst. congruence.
           ++ destruct d; discriminate.
    + split.
      * intros H. inversion H; subst. exists (List.length l).
        rewrite nth_error_app2, Nat.sub_diag by lia.
        split; [reflexivity|]. split; [exact Hx|].
        intros j mj Hj Hnth.
        assert (Hlt : j < List.length (l ++ [a]))
          by (apply nth_error_Some; congruence).
        rewrite length_app in Hlt. simpl in Hlt. lia.
      * intros [k [Hk [Ha Hafter]]].
        destruct (Nat.lt_ge_cases k (List.length l)) as [Hkl|Hkl].
        -- assert (Hx' : is_tool x = true).
           { apply (Hafter (List.length l) x Hkl).
             now rewrite nth_error_app2, Nat.sub_diag by lia. }
           congruence.
        -- rewrite nth_error_app2 in Hk by exact Hkl.
           destruct (k - List.length l) as [|d]; simpl in Hk.
           ++ exact Hk.
           ++ destruct d; discriminate.
Qed.

Lemma nearestNonTool_skip_tools (before tools : list Msg) :
  (forall t, In t tools -> is_tool t = true) ->
  nearestNonTool (before ++ tools) = nearestNonTool before.
Proof.
  induction tools as [|t tools IH] using rev_ind; intros H.
  - now rewrite app_nil_r.
  - rewrite app_assoc, nearestNonTool_snoc.
    rewrite (H t) by (apply in_or_app; right; now left).
    apply IH. intros u Hu. apply H. apply in_or_app. now left.
Qed.

Lemma immediate_nth (rest : list Msg) (j : nat) (t : Msg) :
  nth_error (immediateToolMessages rest) j = Some t ->
  nth_error rest j = Some t /\ is_tool t = true /\
  forall u, In u (firstn j rest) -> is_tool u = true.
Proof.
  revert j. induction rest as [|m rest IH]; intros j H; simpl in H.
  - destruct j; discriminate.
  - destruct (is_tool m) eqn:Hm; [|destruct j; discriminate].
    destruct j as [|j]; simpl in *.
    + inversion H; subst. repeat split; auto.
    + destruct (IH j H) as [H1 [H2 H3]]. repeat split; auto.
      intros u [Hu|Hu]; [now subst|auto].
Qed.

Lemma set_tool_calls_same (a : Msg) (calls : list ToolCall) :
  tool_calls a = Some calls -> set_tool_calls a (Some calls) = a.
Proof. destruct a; simpl; intros H; subst; reflexivity. Qed.

Lemma id_matches_intro (t : Msg) (call : ToolCall) :
  tool_call_id t = Some (tc_id call) -> id_matches t call = true.
Proof. unfold id_matches. intros H. rewrite H. apply js_eqb_refl. Qed.

Lemma id_matches_elim (t : Msg) (call : ToolCall) :
  id_matches t call = true -> tool_call_id t = Some (tc_id call).
Proof.
  unfold id_matches. destruct (tool_call_id t) as [s|]; [|discriminate].
  intros H. apply js_eqb_eq in H. now subst.
Qed.

(** An assistant message all of whose calls (at least one) are answered in
    the run behind it is emitted as it is, and so is each answering tool
    message. *)
Lemma validate_paired_unchanged (xs : list Msg) (i : nat) (a : Msg)
  (calls : list ToolCall) :
  nth_error xs i = Some a ->
  is_assistant a = true ->
  tool_calls a = Some calls ->
  calls <> [] ->
  (forall call, In call calls ->
     exists t, In t (immediateToolMessages (skipn (S i) xs))
               /\ tool_call_id t = Some (tc_id call)) ->
  validateAt xs i = [a] /\
  forall j t,
    nth_error (immediateToolMessages (skipn (S i) xs)) j = Some t ->
    (exists call, In call calls /\ tool_call_id t = Some (tc_id call)) ->
    nth_error xs (S i + j) = Some t /\ validateAt xs (S i + j) = [t].
Proof.
  intros Hnth Ha Hc Hne Hall.
  destruct (nth_error_split _ _ Hnth) as [before [rest [Hxs Hlen]]].
  assert (Hskip : skipn (S i) xs = rest).
  { subst xs i. replace (before ++ a :: rest) with ((before ++ [a]) ++ rest)
      by (rewrite <- app_assoc; reflexivity).
    replace (S (List.length before)) with (List.length (before ++ [a]))
      by (rewrite length_app; simpl; lia).
    rewrite skipn_app, skipn_all, Nat.sub_diag. reflexivity. }
  rewrite Hskip in *. split.
  - subst xs i. rewrite validateAt_middle, Ha, Hc, validateAssistant_head.
    rewrite filter_all_true.
    + destruct calls as [|c calls']; [congruence|].
      now rewrite set_tool_calls_same.
    + intros call Hin. destruct (Hall call Hin) as [t [Ht Hid]].
      apply existsb_exists. exists t. split; [exact Ht|].
      now apply id_matches_intro.
  - intros j t Hj [call [Hin Hid]].
    destruct (immediate_nth _ _ _ Hj) as [Hrj [Htool Hpre]].
    assert (Hpos : nth_error xs (S i + j) = Some t).
    { subst xs i. rewrite nth_error_app2 by lia.
      replace (S (List.length before) + j - List.length before) with (S j)
        by lia.
      exact Hrj. }
    split; [exact Hpos|].
    pose proof (firstn_skipn_middle j rest Hrj) as Hrest.
    assert (Hxs' : xs = (before ++ a :: firstn j rest) ++ t :: skipn (S j) rest).
    { rewrite <- app_assoc, <- app_comm_cons, Hrest. exact Hxs. }
    assert (Hlen' : List.length (before ++ a :: firstn j rest) = S i + j).
    { rewrite length_app. simpl. rewrite length_firstn.
      assert (j < List.length rest) by (apply nth_error_Some; congruence).
      lia. }
    rewrite <- Hlen'. rewrite Hxs' at 1. rewrite validateAt_middle.
    rewrite (tool_not_assistant _ Htool), Htool.
    replace (before ++ a :: firstn j rest)
      with ((before ++ [a]) ++ firstn j rest)
      by (rewrite <- app_assoc; reflexivity).
    rewrite nearestNonTool_skip_tools by exact Hpre.
    rewrite nearestNonTool_snoc, (assistant_not_tool _ Ha).
    unfold owner_matches. rewrite Ha, Hc.
    replace (some_call_matches calls t) with true; [reflexivity|].
    symmetry. apply existsb_exists. exists call. split; [exact Hin|].
    now apply id_matches_intro.
Qed.

(* ===================================================================== *)
(** * Claims about the tool-pairing validator *)
(* ===================================================================== *)

(** An empty [tool_calls] array, which the translator never produces (it
    sets the key only for at least one call), is treated as no call at
    all: the validator deletes the key, and drops the whole message when
    the content is [null]. *)
Lemma empty_tool_calls_removed :
  is_assistant assistant_empty_calls = true /\
  tool_calls assistant_empty_calls = Some [] /\
  (forall call, In call [] ->
     exists t, In t (immediateToolMessages (skipn 1 [assistant_empty_calls]))
               /\ tool_call_id t = Some (tc_id call)) /\
  validateOpenAIToolCalls [assistant_empty_calls]
    = [mkMsg (js "assistant") (CStr (js "x")) None None] /\
  validateOpenAIToolCalls [assistant_empty_calls] <> [assistant_empty_calls] /\
  validateOpenAIToolCalls [assistant_null_empty_calls] = [].
Proof.
  repeat split; try reflexivity.
  - intros call [].
  - discriminate.
Qed.

(** C2: the validator is idempotent on every list of target messages; and
    an assistant message with [tool_calls] (at least one call), each call
    of which is answered by a tool message of the run of tool messages
    right behind it, is emitted unchanged, as is every tool message of
    that run that answers one of the calls. *)
Theorem C2_validator_idempotent :
  (forall xs,
     validateOpenAIToolCalls (validateOpenAIToolCalls xs)
     = validateOpenAIToolCalls xs) /\
  (forall xs i a calls,
     nth_error xs i = Some a ->
     is_assistant a = true ->
     tool_calls a = Some calls ->
     calls <> [] ->
     (forall call, In call calls ->
        exists t, In t (immediateToolMessages (skipn (S i) xs))
                  /\ tool_call_id t = Some (tc_id call)) ->
     validateOpenAIToolCalls xs
       = flat_map (validateAt xs) (seq 0 (List.length xs)) /\
     validateAt xs i = [a] /\
     forall j t,
       nth_error (immediateToolMessages (skipn (S i) xs)) j = Some t ->
       (exists call, In call calls /\ tool_call_id t = Some (tc_id call)) ->
       nth_error xs (S i + j) = Some t /\ validateAt xs (S i + j) = [t]).
Proof.
  split; [exact validate_idempotent|].
  intros xs i a calls H1 H2 H3 H4 H5.
  split; [apply validate_flat_map|].
  exact (validate_paired_unchanged xs i a calls H1 H2 H3 H4 H5).
Qed.

Lemma C2_witness :
  validateOpenAIToolCalls [assistant_t1; tool_t1]
    = flat_map (validateAt [assistant_t1; tool_t1]) (seq 0 2) /\
  validateAt [assistant_t1; tool_t1] 0 = [assistant_t1] /\
  forall j t,
    nth_error (immediateToolMessages (skipn 1 [assistant_t1; tool_t1])) j
      = Some t ->
    (exists call, In call [call_t1] /\ tool_call_id t = Some (tc_id call)) ->
    nth_error [assistant_t1; tool_t1] (1 + j) = Some t
    /\ validateAt [assistant_t1; tool_t1] (1 + j) = [t].
Proof.
  apply (proj2 C2_validator_idempotent [assistant_t1; tool_t1] 0 assistant_t1
           [call_t1]).
  - reflexivity.
  - reflexivity.
  - reflexivity.
  - discriminate.
  - intros call [Hc|[]]. subst call. exists tool_t1. split.
    + simpl. left. reflexivity.
    + reflexivity.
Defined.

(** C8: the validator keeps the tool message at position [i] exactly when
    there is a nearest non-tool message in front of it (only tool messages
    in between), that message is an assistant message with [tool_calls],
    and one of its calls has the tool message's [tool_call_id]; in every
    other case the tool message is dropped. *)
Theorem C8_tool_message_kept_iff (messages : list Msg) (i : nat) (m : Msg) :
  nth_error messages i = Some m ->
  is_tool m = true ->
  validateOpenAIToolCalls messages
    = flat_map (validateAt messages) (seq 0 (List.length messages)) /\
  (validateAt messages i = [m] \/ validateAt messages i = []) /\
  (validateAt messages i = [m] <->
   exists k a calls call,
     k < i /\ nth_error messages k = Some a /\ is_tool a = false /\
     (forall j mj, k < j < i -> nth_error messages j = Some mj ->
                   is_tool mj = true) /\
     is_assistant a = true /\ tool_calls a = Some calls /\
     In call calls /\ tool_call_id m = Some (tc_id call)).
Proof.
  intros Hnth Htool.
  split; [apply validate_flat_map|].
  destruct (nth_error_split _ _ Hnth) as [before [rest [Hxs Hlen]]].
  assert (Hat : validateAt messages i
                = if owner_matches (nearestNonTool before) m then [m] else []).
  { subst messages i. rewrite validateAt_middle.
    now rewrite (tool_not_assistant _ Htool), Htool. }
  assert (Hbefore : forall j, j < i ->
                      nth_error before j = nth_error messages j).
  { intros j Hj. subst messages. now rewrite nth_error_app1 by lia. }
  rewrite Hat. split.
  - destruct (owner_matches _ m); auto.
  - split.
    + intros Hkept.
      destruct (owner_matches (nearestNonTool before) m) eqn:Ho;
        [|discriminate].
      unfold owner_matches in Ho.
      destruct (nearestNonTool before) as [a|] eqn:Hnear; [|discriminate].
      destruct (is_assistant a) eqn:Ha; [|discriminate].
      destruct (tool_calls a) as [calls|] eqn:Hc; [|discriminate].
      apply existsb_exists in Ho as [call [Hin Hid]].
      apply nearestNonTool_position in Hnear as [k [Hk [Hnt Hafter]]].
      assert (Hki : k < i)
        by (rewrite <- Hlen; apply nth_error_Some; congruence).
      exists k, a, calls, call. repeat split; auto.
      * now rewrite <- Hbefore.
      * intros j mj [Hkj Hji] Hj. apply (Hafter j mj Hkj).
        now rewrite Hbefore.
      * now apply id_matches_elim.
    + intros [k [a [calls [call [Hki [Hk [Hnt [Hbetween [Ha [Hc [Hin Hid]]]]]]]]]]].
      assert (Hnear : nearestNonTool before = Some a).
      { apply nearestNonTool_position. exists k.
        split; [now rewrite Hbefore|]. split; [exact Hnt|].
        intros j mj Hkj Hj.
        assert (Hji : j < i)
          by (rewrite <- Hlen; apply nth_error_Some; congruence).
        apply (Hbetween j mj (conj Hkj Hji)). now rewrite <- Hbefore. }
      rewrite Hnear. unfold owner_matches. rewrite Ha, Hc.
      replace (some_call_matches calls m) with true; [reflexivity|].
      symmetry. apply existsb_exists. exists call.
      split; [exact Hin|]. now apply id_matches_intro.
Qed.

(** The scenarios of the validator: a tool message with no message in
    front of it is dropped; an answered call and its answer are kept; a
    user message between the call and the answer loses both. *)
Lemma validator_scenarios :
  validateOpenAIToolCalls [tool_t1] = [] /\
  validateOpenAIToolCalls [assistant_t1; tool_t1] = [assistant_t1; tool_t1] /\
  validateOpenAIToolCalls
    [assistant_t1; mkMsg (js "user") (CStr (js "hi")) None None; tool_t1]
  = [mkMsg (js "user") (CStr (js "hi")) None None].
Proof. repeat split; reflexivity. Qed.

Lemma C8_witness :
  validateOpenAIToolCalls [assistant_t1; tool_t1]
    = flat_map (validateAt [assistant_t1; tool_t1]) (seq 0 2) /\
  (validateAt [assistant_t1; tool_t1] 1 = [tool_t1]
   \/ validateAt [assistant_t1; tool_t1] 1 = []) /\
  (validateAt [assistant_t1; tool_t1] 1 = [tool_t1] <->
   exists k a calls call,
     k < 1 /\ nth_error [assistant_t1; tool_t1] k = Some a /\
     is_tool a = false /\
     (forall j mj, k < j < 1 -> nth_error [assistant_t1; tool_t1] j = Some mj ->
                   is_tool mj = true) /\
     is_assistant a = true /\ tool_calls a = Some calls /\
     In call calls /\ tool_call_id tool_t1 = Some (tc_id call)).
Proof.
  apply (C8_tool_message_kept_iff [assistant_t1; tool_t1] 1 tool_t1);
    reflexivity.
Defined.

(* ===================================================================== *)
(** * What the validator and the translator emit *)
(* ===================================================================== *)

(** Every validated message comes from an input message with the same role
    and content: it is that message, or an assistant message whose
    [tool_calls] were narrowed to a non-empty list, or removed while the
    content is truthy. *)
Lemma validateFrom_in (m : Msg) (ms : list Msg) : forall owner,
  In m (validateFrom owner ms) ->
  exists m0, In m0 ms /\ role m = role m0 /\ content m = content m0 /\
    (m = m0 \/
     (is_assistant m0 = true /\
      ((exists c v, tool_calls m = Some (c :: v)) \/
       (tool_calls m = None /\ content_truthy (content m0) = true)))).
Proof.
  induction ms as [|x rest IH]; intros owner Hin; [destruct Hin|].
  simpl validateFrom in Hin.
  assert (Hrest : forall o, In m (validateFrom o rest) ->
            exists m0, In m0 (x :: rest) /\ role m = role m0 /\
              content m = content m0 /\
              (m = m0 \/
               (is_assistant m0 = true /\
                ((exists c v, tool_calls m = Some (c :: v)) \/
                 (tool_calls m = None /\ content_truthy (content m0) = true))))).
  { intros o Ho. destruct (IH o Ho) as [m0 [H0 H1]]. exists m0.
    split; [now right|exact H1]. }
  assert (Hself : m = x ->
            exists m0, In m0 (x :: rest) /\ role m = role m0 /\
              content m = content m0 /\
              (m = m0 \/
               (is_assistant m0 = true /\
                ((exists c v, tool_calls m = Some (c :: v)) \/
                 (tool_calls m = None /\ content_truthy (content m0) = true))))).
  { intros ->. exists x. split; [now left|]. auto. }
  destruct (is_assistant x) eqn:Ha, (tool_calls x) as [calls|] eqn:Hc.
  - rewrite validateAssistant_head in Hin. apply in_app_or in Hin as [Hin|Hin];
      [|eauto].
    destruct (filter _ calls) as [|c valid].
    + destruct (content_truthy (content x)) eqn:Hct; [|destruct Hin].
      destruct Hin as [<-|[]]. exists x. simpl.
      split; [now left|]. split; [reflexivity|]. split; [reflexivity|].
      right. split; [exact Ha|]. right. now split.
    + destruct Hin as [<-|[]]. exists x. simpl.
      split; [now left|]. split; [reflexivity|]. split; [reflexivity|].
      right. split; [exact Ha|]. left. now exists c, valid.
  - rewrite (assistant_not_tool _ Ha) in Hin. destruct Hin as [<-|Hin]; eauto.
  - destruct (is_tool x).
    + apply in_app_or in Hin as [Hin|Hin]; [|eauto].
      destruct (owner_matches owner x); [|destruct Hin].
      destruct Hin as [<-|[]]. auto.
    + destruct Hin as [<-|Hin]; eauto.
  - destruct (is_tool x).
    + apply in_app_or in Hin as [Hin|Hin]; [|eauto].
      destruct (owner_matches owner x); [|destruct Hin].
      destruct Hin as [<-|[]]. auto.
    + destruct Hin as [<-|Hin]; eauto.
Qed.

Lemma annotateLast_snoc (l : list Msg) (x : Msg) :
  annotateLast (l ++ [x]) = l ++ [annotateMessage x].
Proof.
  unfold annotateLast. rewrite rev_app_distr. simpl.
  now rewrite rev_involutive.
Qed.

Lemma annotateMessage_system (text : jsstring) :
  annotateMessage (systemMessage text) = systemMessage text.
Proof. reflexivity. Qed.

Lemma systemMessages_shape (system : SystemField) (m : Msg) :
  In m (systemMessages system) -> exists text, m = systemMessage text.
Proof.
  destruct system as [texts|s]; simpl.
  - intros H. apply in_map_iff in H as [t [<- _]]. now exists t.
  - intros [<-|[]]. now exists s.
Qed.

Lemma annotateLast_system (system : SystemField) :
  annotateLast (systemMessages system) = systemMessages system.
Proof.
  destruct (systemMessages system) as [|m l] eqn:E using rev_ind;
    [reflexivity|].
  rewrite annotateLast_snoc.
  destruct (systemMessages_shape system m) as [t ->].
  - rewrite E. apply in_or_app. right. now left.
  - now rewrite annotateMessage_system.
Qed.

Lemma markedBlocks_app (l1 l2 : list Msg) :
  markedBlocks (l1 ++ l2) = markedBlocks l1 + markedBlocks l2.
Proof.
  unfold markedBlocks. now rewrite flat_map_app, filter_app, length_app.
Qed.

Lemma markedBlocks_system (system : SystemField) :
  markedBlocks (systemMessages system) = List.length (systemMessages system).
Proof.
  assert (H : forall l, (forall m, In m l -> exists t, m = systemMessage t) ->
                        markedBlocks l = List.length l).
  { induction l as [|m l IH]; intros Hl; [reflexivity|].
    change (m :: l) with ([m] ++ l). rewrite markedBlocks_app, length_app.
    rewrite IH by (intros x Hx; apply Hl; now right).
    destruct (Hl m (or_introl eq_refl)) as [t ->]. reflexivity. }
  apply H. apply systemMessages_shape.
Qed.

Lemma no_array_no_blocks (m : Msg) : content_is_array m = false -> blocks_of m = [].
Proof. unfold content_is_array, blocks_of. now destruct (content m). Qed.

Lemma markedBlocks_no_blocks (l : list Msg) :
  (forall m, In m l -> content_is_array m = false) -> markedBlocks l = 0.
Proof.
  intros H. unfold markedBlocks.
  replace (flat_map blocks_of l) with (@nil Block); [reflexivity|].
  symmetry. induction l as [|m l IH]; [reflexivity|]. simpl.
  rewrite (no_array_no_blocks m (H m (or_introl eq_refl))). apply IH.
  intros x Hx. apply H. now right.
Qed.

Section TranslatorOutput.

Variable Json : Type.
Variable JSON_stringify : Json -> jsstring.
Variable JSON_stringify_part : ContentPart Json -> jsstring.

(** What [userParts] adds to the tool messages are tool messages without
    blocks. *)
Lemma userParts_tools (parts : list (ContentPart Json)) :
  forall text acc m,
    In m (snd (userParts JSON_stringify parts text acc)) ->
    In m acc \/ (role m = js "tool" /\ content_is_array m = false).
Proof.
  induction parts as [|part parts IH]; intros text acc m Hin; [now left|].
  destruct part as [t|id nm input|id result|ty]; simpl in Hin;
    apply IH in Hin; try exact Hin.
  destruct Hin as [Hin|Hin]; [|now right].
  apply in_app_or in Hin as [Hin|[<-|[]]]; [now left|].
  right. split; [reflexivity|]. now destruct result.
Qed.

(** The shapes [translateMessage] emits. *)
Lemma translateMessage_shape (sm : SourceMessage Json) (m : Msg) :
  In m (translateMessage JSON_stringify JSON_stringify_part sm) ->
  content_is_array m = false /\
  (is_assistant m = true ->
   (exists s, src_content sm = SourceString Json s /\ content m = CStr s
              /\ src_role sm = js "assistant")
   \/ assistant_nonempty m = true).
Proof.
  unfold translateMessage. destruct (src_content sm) as [s|parts|] eqn:Hc.
  - intros [<-|[]]. split; [reflexivity|]. intros Ha. left. exists s.
    repeat split. now apply js_eqb_eq.
  - destruct (js_eqb (src_role sm) (js "assistant")) eqn:Hr.
    + destruct (assistantParts JSON_stringify parts [] []) as [text calls].
      match goal with
      | |- In m (if ?c then _ else _) -> _ => destruct c eqn:Hne
      end; [|intros []].
      intros [<-|[]]. split.
      * simpl. now destruct (js_truthy (trim text)).
      * intros _. right. unfold assistant_nonempty. simpl.
        destruct calls; exact Hne.
    + destruct (js_eqb (src_role sm) (js "user")) eqn:Hu.
      * destruct (userParts JSON_stringify parts [] []) as [text tools] eqn:Hp.
        intros Hin. apply in_app_or in Hin as [Hin|Hin].
        -- destruct (js_truthy (trim text)); [|destruct Hin].
           destruct Hin as [<-|[]]. split; [reflexivity|]. discriminate.
        -- pose proof (userParts_tools parts [] [] m) as Ht.
           rewrite Hp in Ht. destruct (Ht Hin) as [[]|[Hrole Hb]].
           split; [exact Hb|]. unfold is_assistant. rewrite Hrole. discriminate.
      * destruct (js_truthy _); [|intros []].
        intros [<-|[]]. split; [reflexivity|].
        unfold is_assistant. simpl. rewrite Hr. discriminate.
  - intros [].
Qed.

Lemma flatMapMessages_in (l : list (option (SourceMessage Json)))
  (out : list Msg) (m : Msg) :
  flatMapMessages JSON_stringify JSON_stringify_part l = inr out ->
  In m out ->
  exists sm, In (Some sm) l
             /\ In m (translateMessage JSON_stringify JSON_stringify_part sm).
Proof.
  revert out. induction l as [|[sm|] l IH]; intros out H Hin; simpl in H.
  - inversion H; subst. destruct Hin.
  - destruct (flatMapMessages _ _ l) as [e|out'] eqn:E; [discriminate|].
    inversion H; subst. apply in_app_or in Hin as [Hin|Hin].
    + exists sm. split; [now left|exact Hin].
    + destruct (IH out' eq_refl Hin) as [sm' [H1 H2]].
      exists sm'. split; [now right|exact H2].
  - discriminate.
Qed.

Lemma openAIMessages_in (body : Body Json) (out : list Msg) (m : Msg) :
  openAIMessages JSON_stringify JSON_stringify_part body = inr out ->
  In m out ->
  exists l sm, messages body = MessagesArray l /\ In (Some sm) l
    /\ In m (translateMessage JSON_stringify JSON_stringify_part sm).
Proof.
  unfold openAIMessages. destruct (messages body) as [|l] eqn:E.
  - intros H; inversion H; subst. intros [].
  - intros H Hin. destruct (flatMapMessages_in l out m H Hin) as [sm [H1 H2]].
    now exists l, sm.
Qed.

(** The content of a validated translation is never an array. *)
Lemma validated_no_blocks (body : Body Json) (translated : list Msg) (m : Msg) :
  openAIMessages JSON_stringify JSON_stringify_part body = inr translated ->
  In m (validateOpenAIToolCalls translated) ->
  content_is_array m = false.
Proof.
  intros Ht Hin. rewrite validate_eq_validateFrom in Hin.
  destruct (validateFrom_in m translated None Hin) as [m0 [H0 [_ [Hcont _]]]].
  destruct (openAIMessages_in body translated m0 Ht H0) as [l [sm [_ [_ Hsm]]]].
  apply translateMessage_shape in Hsm as [Hb _].
  unfold content_is_array in *. now rewrite Hcont.
Qed.

(** Apart from an assistant message sent with the empty string as content,
    every validated assistant message has a content or a tool call. *)
Lemma validated_assistant_nonempty (body : Body Json)
  (translated : list Msg) (m : Msg) :
  openAIMessages JSON_stringify JSON_stringify_part body = inr translated ->
  (forall l sm, messages body = MessagesArray l -> In (Some sm) l ->
                src_role sm = js "assistant" ->
                src_content sm <> SourceString Json []) ->
  In m (validateOpenAIToolCalls translated) ->
  is_assistant m = true ->
  assistant_nonempty m = true.
Proof.
  intros Ht Hsrc Hin Ha. rewrite validate_eq_validateFrom in Hin.
  destruct (validateFrom_in m translated None Hin)
    as [m0 [H0 [Hrole [Hcont Hcases]]]].
  destruct (openAIMessages_in body translated m0 Ht H0) as [l [sm [Hl [Hsm Htr]]]].
  assert (Ha0 : is_assistant m0 = true)
    by (unfold is_assistant in *; now rewrite <- Hrole).
  destruct Hcases as [->|[_ [[c [v Hc]]|[Hc Hct]]]].
  - apply translateMessage_shape in Htr as [_ Htr].
    destruct (Htr Ha0) as [[s [Hs [Hcs Hr]]]|Hne]; [|exact Hne].
    unfold assistant_nonempty. rewrite Hcs. simpl.
    destruct s as [|ch s]; [|reflexivity].
    exfalso. exact (Hsrc l sm Hl Hsm Hr Hs).
  - unfold assistant_nonempty. rewrite Hc. apply orb_true_r.
  - unfold assistant_nonempty. rewrite Hcont, Hct. reflexivity.
Qed.

End TranslatorOutput.

(* ===================================================================== *)
(** * Claims about translation and cache annotation *)
(* ===================================================================== *)

Section TranslationFacts.

Variable Json : Type.
Variable JSON_stringify : Json -> jsstring.
Variable JSON_stringify_part : ContentPart Json -> jsstring.

(** C4 on the code: for the scenario's input the result has the two
    messages the claim describes, but the text of the user block is [Hi]
    followed by a backslash and an [n]: the separator appended to every
    text part is the two-character string written ["\\n"], which [trim]
    does not remove. *)
Theorem C4_scenario_keeps_backslash_n (model : jsstring) (stream : bool) :
  formatRequestMessages JSON_stringify JSON_stringify_part
    (body_hi Json model stream)
  = inr [systemMessage (js "You are helpful");
         mkMsg (js "user")
           (CBlocks [mkBlock (js "text") (js "Hi" ++ backslash_n)
                       (Some ephemeral)])
           None None]
  /\ js "Hi" ++ backslash_n = [72; 105; 92; 110]%N
  /\ js "Hi" ++ backslash_n <> js "Hi".
Proof.
  split; [reflexivity|]. split; [reflexivity|discriminate].
Qed.

(** C3 on the code: two assistant messages with the empty string as
    content are translated through the string short-circuit and pass the
    validator untouched, so the validated list holds two adjacent
    assistant messages with empty content and no [tool_calls]. *)
Theorem C3_empty_string_assistant_survives (system : SystemField) :
  openAIMessages JSON_stringify JSON_stringify_part
    (body_empty_assistants Json system)
  = inr [empty_assistant; empty_assistant]
  /\ validateOpenAIToolCalls [empty_assistant; empty_assistant]
     = [empty_assistant; empty_assistant]
  /\ is_assistant empty_assistant = true
  /\ content_truthy (content empty_assistant) = false
  /\ tool_calls empty_assistant = None.
Proof. repeat split; reflexivity. Qed.

(** C5, as the claim states it: with no message and the system prompt
    ["S"] the final list is not empty, its only block is the system block,
    and that is the only block with a marker: there is no further marked
    block. *)
Lemma C5_counterexample_system_only :
  formatRequestMessages sample_stringify sample_stringify_part body_system_only
    = inr [systemMessage (js "S")] /\
  [systemMessage (js "S")] <> [] /\
  List.length (systemMessages (system body_system_only)) = 1 /\
  markedBlocks [systemMessage (js "S")] = 1 /\
  markedBlocks [systemMessage (js "S")]
    <> List.length (systemMessages (system body_system_only)) + 1.
Proof. repeat split; try reflexivity; discriminate. Qed.

(** A second way to no further marked block: the last message is a tool
    message whose [tool_result] had no content, so its content is
    [undefined] and the annotation leaves it alone. *)
Lemma last_tool_without_content_unmarked :
  formatRequestMessages sample_stringify sample_stringify_part
    body_result_without_content
  = inr [mkMsg (js "assistant") CNull
           (Some [mkToolCall (js "t1") (js "f") payload_a1]) None;
         mkMsg (js "tool") CUndefined None (Some (js "t1"))].
Proof. reflexivity. Qed.

(** C5 (amended): every message built from the system field is one text
    block with an ephemeral marker; no validated message has an array
    content; when the validated list is empty the final list is the system
    messages alone and only their blocks are marked; when the validated
    list ends with a message whose content is a string, that content
    becomes one marked text block and this is the only further marked
    block; when the last content is not a string the message is left as it
    is and no further block is marked. *)
Theorem C5_cache_markers (body : Body Json) (translated : list Msg) :
  openAIMessages JSON_stringify JSON_stringify_part body = inr translated ->
  exists final,
    formatRequestMessages JSON_stringify JSON_stringify_part body = inr final /\
    (forall m, In m (systemMessages (system body)) ->
               exists text, m = systemMessage text) /\
    (forall m, In m (validateOpenAIToolCalls translated) ->
               content_is_array m = false) /\
    (validateOpenAIToolCalls translated = [] ->
       final = systemMessages (system body) /\
       markedBlocks final = List.length (systemMessages (system body))) /\
    (forall before lastMessage,
       validateOpenAIToolCalls translated = before ++ [lastMessage] ->
       final = systemMessages (system body) ++ before
               ++ [annotateMessage lastMessage] /\
       match content lastMessage with
       | CStr s =>
           annotateMessage lastMessage
           = set_content lastMessage
               (CBlocks [mkBlock (js "text") s (Some ephemeral)]) /\
           markedBlocks final
           = List.length (systemMessages (system body)) + 1
       | _ =>
           annotateMessage lastMessage = lastMessage /\
           markedBlocks final = List.length (systemMessages (system body))
       end).
Proof.
  intros Ht.
  exists (annotateLast (systemMessages (system body)
                        ++ validateOpenAIToolCalls translated)).
  assert (Hnb : forall m, In m (validateOpenAIToolCalls translated) ->
                          content_is_array m = false)
    by (intros m; apply (validated_no_blocks _ JSON_stringify
                           JSON_stringify_part body translated m Ht)).
  split.
  { unfold formatRequestMessages, assembledMessages. now rewrite Ht. }
  split; [apply systemMessages_shape|]. split; [exact Hnb|]. split.
  - intros Hnil. rewrite Hnil, app_nil_r, annotateLast_system.
    split; [reflexivity|apply markedBlocks_system].
  - intros before lastMessage Hlast. rewrite Hlast in *.
    rewrite !app_assoc, annotateLast_snoc, <- !app_assoc.
    split; [reflexivity|].
    assert (Hbefore : markedBlocks before = 0).
    { apply markedBlocks_no_blocks. intros m Hm. apply Hnb.
      apply in_or_app. now left. }
    assert (Hl : content_is_array lastMessage = false).
    { apply Hnb. apply in_or_app. right. now left. }
    rewrite !markedBlocks_app, markedBlocks_system, Hbefore.
    unfold content_is_array in Hl. unfold annotateMessage.
    destruct (content lastMessage) as [| |s|bs] eqn:Hc;
      try discriminate; (split; [reflexivity|]).
    + rewrite (markedBlocks_no_blocks [lastMessage]); [lia|].
      intros m [<-|[]]. unfold content_is_array. now rewrite Hc.
    + rewrite (markedBlocks_no_blocks [lastMessage]); [lia|].
      intros m [<-|[]]. unfold content_is_array. now rewrite Hc.
    + reflexivity.
Qed.

End TranslationFacts.

Lemma C5_witness :
  exists final,
    formatRequestMessages sample_stringify sample_stringify_part
      (body_hi SampleJson (js "m") false) = inr final /\
    (forall m, In m (systemMessages (system (body_hi SampleJson (js "m") false))) ->
               exists text, m = systemMessage text) /\
    (forall m, In m (validateOpenAIToolCalls
                       [mkMsg (js "user") (CStr (js "Hi" ++ backslash_n))
                          None None]) ->
               content_is_array m = false) /\
    (validateOpenAIToolCalls
       [mkMsg (js "user") (CStr (js "Hi" ++ backslash_n)) None None] = [] ->
       final = systemMessages (system (body_hi SampleJson (js "m") false)) /\
       markedBlocks final
       = List.length (systemMessages (system (body_hi SampleJson (js "m") false)))) /\
    (forall before lastMessage,
       validateOpenAIToolCalls
         [mkMsg (js "user") (CStr (js "Hi" ++ backslash_n)) None None]
       = before ++ [lastMessage] ->
       final = systemMessages (system (body_hi SampleJson (js "m") false))
               ++ before ++ [annotateMessage lastMessage] /\
       match content lastMessage with
       | CStr s =>
           annotateMessage lastMessage
           = set_content lastMessage
               (CBlocks [mkBlock (js "text") s (Some ephemeral)]) /\
           markedBlocks final
           = List.length
               (systemMessages (system (body_hi SampleJson (js "m") false))) + 1
       | _ =>
           annotateMessage lastMessage = lastMessage /\
           markedBlocks final
           = List.length
               (systemMessages (system (body_hi SampleJson (js "m") false)))
       end).
Proof.
  apply (C5_cache_markers SampleJson sample_stringify sample_stringify_part
           (body_hi SampleJson (js "m") false)
           [mkMsg (js "user") (CStr (js "Hi" ++ backslash_n)) None None]).
  reflexivity.
Defined.

(* ===================================================================== *)
(** * The streaming decoder *)
(* ===================================================================== *)

Lemma decode_app (a b : list N) : forall d,
  decode d (a ++ b)
  = (fst (decode d a) ++ fst (decode (snd (decode d a)) b),
     snd (decode (snd (decode d a)) b)).
Proof.
  induction a as [|byte a IH]; intros d; simpl.
  - now destruct (decode d b).
  - destruct (decodeByte d byte) as [out1 d1]. rewrite IH.
    destruct (decode d1 a) as [out2 d2]. simpl.
    now rewrite app_assoc.
Qed.

Lemma split_newline_nonempty (s : jsstring) : split_newline s <> [].
Proof.
  destruct s as [|c r]; simpl; [discriminate|].
  destruct (N.eqb c newline); [discriminate|].
  destruct (split_newline r); discriminate.
Qed.

(** Splitting a concatenation: the complete lines of the first part, then
    the lines of its last fragment followed by the second part. *)
Lemma split_newline_app (a b : jsstring) :
  split_newline (a ++ b)
  = removelast (split_newline a)
    ++ split_newline (last (split_newline a) [] ++ b).
Proof.
  induction a as [|c r IH]; [reflexivity|].
  pose proof (split_newline_nonempty r) as Hne.
  simpl app. simpl split_newline. destruct (N.eqb c newline) eqn:Hc.
  - rewrite IH. destruct (split_newline r) as [|x xs]; [congruence|].
    reflexivity.
  - rewrite IH. destruct (split_newline r) as [|x [|y xs]]; [congruence| |].
    + simpl. rewrite Hc. reflexivity.
    + reflexivity.
Qed.

Lemma trimStart_empty (s : jsstring) :
  trimStart s = [] <-> forallb is_whitespace s = true.
Proof.
  induction s as [|c r IH]; simpl; [tauto|].
  destruct (is_whitespace c); simpl; [exact IH|].
  split; discriminate.
Qed.

Lemma trimStart_head (s : jsstring) (c : N) (r : jsstring) :
  trimStart s = c :: r -> is_whitespace c = false.
Proof.
  induction s as [|x s IH]; simpl; [discriminate|].
  destruct (is_whitespace x) eqn:Hx; [exact IH|].
  intros H. inversion H; subst. exact Hx.
Qed.

Lemma forallb_rev (A : Type) (f : A -> bool) (l : list A) :
  forallb f (rev l) = forallb f l.
Proof.
  induction l as [|x l IH]; [reflexivity|]. simpl.
  rewrite forallb_app, IH. simpl. rewrite andb_true_r. apply andb_comm.
Qed.

(** [trim] gives the empty string exactly on white space. *)
Lemma trim_falsy (s : jsstring) :
  js_truthy (trim s) = false <-> forallb is_whitespace s = true.
Proof.
  unfold trim, trimEnd. split.
  - intros H.
    destruct (rev (trimStart (rev (trimStart s)))) as [|c r] eqn:E;
      [|discriminate].
    apply (f_equal (@rev N)) in E. rewrite rev_involutive in E. simpl in E.
    apply trimStart_empty in E. rewrite forallb_rev in E.
    destruct (trimStart s) as [|x u] eqn:Hu.
    + now apply trimStart_empty.
    + apply trimStart_head in Hu. simpl in E. rewrite Hu in E. discriminate.
  - intros H. apply trimStart_empty in H. rewrite H. reflexivity.
Qed.

Lemma whitespace_lines (s : jsstring) :
  forallb is_whitespace s = true ->
  forall line, In line (split_newline s) -> forallb is_whitespace line = true.
Proof.
  induction s as [|c r IH]; simpl.
  - intros _ line [<-|[]]. reflexivity.
  - intros H. apply andb_true_iff in H as [Hc Hr]. specialize (IH Hr).
    destruct (N.eqb c newline).
    + intros line [<-|Hin]; [reflexivity|auto].
    + destruct (split_newline r) as [|x xs].
      * intros line [<-|[]]. simpl. now rewrite Hc.
      * intros line [<-|Hin].
        -- simpl. rewrite Hc. apply IH. now left.
        -- apply IH. now right.
Qed.

Lemma startsWith_data_truthy (line : jsstring) :
  startsWith line (js "data: ") = true -> js_truthy (trim line) = true.
Proof.
  intros H. destruct (js_truthy (trim line)) eqn:E; [reflexivity|].
  apply trim_falsy in E. destruct line as [|c r]; [discriminate|].
  simpl in H. apply andb_true_iff in H as [Hc _].
  apply N.eqb_eq in Hc. subst c. discriminate.
Qed.

Section DecoderFacts.

Variable Json : Type.
Variable JSON_parse : jsstring -> option Json.

(** What a line yields, by its raw prefix. *)
Lemma processLine_by_prefix (line : jsstring) :
  processLine JSON_parse line
  = if startsWith line (js "data: ") then
      if js_eqb (trim (slice 6 line)) (js "[DONE]") then []
      else match JSON_parse (trim (slice 6 line)) with
           | Some parsed => [parsed]
           | None => []
           end
    else [].
Proof.
  unfold processLine. destruct (startsWith line (js "data: ")) eqn:E.
  - now rewrite (startsWith_data_truthy line E).
  - now rewrite andb_false_r.
Qed.

Lemma whitespace_yields_nothing (s : jsstring) :
  js_truthy (trim s) = false ->
  flat_map (processLine JSON_parse) (split_newline s) = [].
Proof.
  intros H. apply trim_falsy in H.
  pose proof (whitespace_lines s H) as Hl.
  induction (split_newline s) as [|line ls IH]; [reflexivity|].
  simpl. rewrite IH by (intros l Hin; apply Hl; now right).
  rewrite app_nil_r. unfold processLine.
  replace (js_truthy (trim line)) with false; [reflexivity|].
  symmetry. apply trim_falsy. apply Hl. now left.
Qed.

(** The events of the read loop are the events of the lines of the whole
    text: the held-back fragment followed by everything decoded from the
    remaining reads. *)
Lemma readLoop_lines (reads : list (list N)) : forall r,
  readLoop JSON_parse reads r
  = flat_map (processLine JSON_parse)
      (split_newline (buffer r ++ fst (decode (decoder r) (List.concat reads)))).
Proof.
  induction reads as [|value rest IH]; intros r.
  - simpl. rewrite app_nil_r. unfold onDone.
    destruct (js_truthy (trim (buffer r))) eqn:E; [reflexivity|].
    symmetry. now apply whitespace_yields_nothing.
  - simpl readLoop. unfold onValue. simpl List.concat. rewrite decode_app.
    destruct (decode (decoder r) value) as [chunk d1]. simpl fst. simpl snd.
    rewrite IH. simpl buffer. simpl decoder.
    rewrite <- flat_map_app, app_assoc.
    now rewrite (split_newline_app (buffer r ++ chunk)).
Qed.

Lemma asyncIterator_lines (reads : list (list N)) :
  asyncIterator JSON_parse reads
  = flat_map (processLine JSON_parse)
      (split_newline (fst (decode newTextDecoder (List.concat reads)))).
Proof. unfold asyncIterator. now rewrite readLoop_lines. Qed.

(** How the body is cut into reads does not matter. *)
Lemma asyncIterator_concat (reads : list (list N)) :
  asyncIterator JSON_parse reads = asyncIterator JSON_parse [List.concat reads].
Proof.
  rewrite !asyncIterator_lines. simpl List.concat. now rewrite app_nil_r.
Qed.

(** C6 (amended): a line yields something only when the raw line, not
    trimmed, starts with [data: ]; the payload is then the rest of the
    line, trimmed; the payload [[DONE]] yields nothing, any other payload
    yields its parsed value when [JSON.parse] succeeds and nothing when it
    throws.  The events of a body are the events of its lines, line by
    line in the order of the decoded text, so the order is kept and no
    line that yields an event is lost. *)
Theorem C6_decoder_lines :
  (forall line,
     processLine JSON_parse line
     = if startsWith line (js "data: ") then
         if js_eqb (trim (slice 6 line)) (js "[DONE]") then []
         else match JSON_parse (trim (slice 6 line)) with
              | Some parsed => [parsed]
              | None => []
              end
       else []) /\
  (forall reads,
     asyncIterator JSON_parse reads
     = flat_map (processLine JSON_parse)
         (split_newline (fst (decode newTextDecoder (List.concat reads))))).
Proof.
  split; [exact processLine_by_prefix|exact asyncIterator_lines].
Qed.

(** C7: the line [data: {"a":1}] and its newline, delivered in two reads
    cut at any byte offset, yields exactly the one parsed event; cutting a
    body in two reads never changes what is yielded, whatever the bytes
    (a cut inside a multi-byte character included); and the line without
    its newline is processed once when the source ends, in one read or
    two. *)
Theorem C7_split_reads (parsed : Json) :
  JSON_parse payload_a1 = Some parsed ->
  (forall k,
     asyncIterator JSON_parse
       [firstn k line_a1_newline; skipn k line_a1_newline] = [parsed]) /\
  (forall a b : list N,
     asyncIterator JSON_parse [a; b] = asyncIterator JSON_parse [a ++ b]) /\
  asyncIterator JSON_parse [line_a1] = [parsed] /\
  (forall k,
     asyncIterator JSON_parse [firstn k line_a1; skipn k line_a1] = [parsed]).
Proof.
  intros Hparse.
  assert (Hcut : forall a b : list N,
            asyncIterator JSON_parse [a; b] = asyncIterator JSON_parse [a ++ b]).
  { intros a b. rewrite (asyncIterator_concat [a; b]). simpl List.concat.
    now rewrite app_nil_r. }
  assert (Hline : asyncIterator JSON_parse [line_a1] = [parsed]).
  { rewrite asyncIterator_lines. vm_compute. vm_compute in Hparse.
    now rewrite Hparse. }
  assert (Hnl : asyncIterator JSON_parse [line_a1_newline] = [parsed]).
  { rewrite asyncIterator_lines. vm_compute. vm_compute in Hparse.
    now rewrite Hparse. }
  repeat split.
  - intros k. now rewrite Hcut, firstn_skipn.
  - exact Hcut.
  - exact Hline.
  - intros k. now rewrite Hcut, firstn_skipn.
Qed.

End DecoderFacts.

Lemma C7_witness :
  (forall k,
     asyncIterator sample_parse
       [firstn k line_a1_newline; skipn k line_a1_newline] = [ObjectA1]) /\
  (forall a b : list N,
     asyncIterator sample_parse [a; b] = asyncIterator sample_parse [a ++ b]) /\
  asyncIterator sample_parse [line_a1] = [ObjectA1] /\
  (forall k,
     asyncIterator sample_parse [firstn k line_a1; skipn k line_a1]
     = [ObjectA1]).
Proof.
  apply (C7_split_reads SampleJson sample_parse ObjectA1). reflexivity.
Defined.

(** C6, as the claim states it: the line [ data: {"a":1}], with one space
    in front, yields the parsed object under the claim's rule (trim, then
    test the prefix), and nothing in the code, which tests the prefix on
    the raw line; a body made of this line yields no event. *)
Lemma C6_counterexample_indented_line :
  claimedProcessLine SampleJson sample_parse indented_line_a1 = [ObjectA1] /\
  processLine sample_parse indented_line_a1 = [] /\
  asyncIterator sample_parse [indented_line_a1 ++ [newline]] = [].
Proof. repeat split; reflexivity. Qed.

(** The decoder keeps an incomplete character between two reads: the two
    bytes of U+00E9, read one at a time, give nothing and then the
    character. *)
Lemma decode_split_character :
  fst (decode newTextDecoder [195%N]) = [] /\
  fst (decode (snd (decode newTextDecoder [195%N])) [169%N]) = [233%N] /\
  fst (decode newTextDecoder [195%N; 169%N]) = [233%N].
Proof. repeat split; reflexivity. Qed.

(* ===================================================================== *)
(** * The provider registry and the client cache *)
(* ===================================================================== *)

Lemma lru_find_key (c : LRUCache) (k : jsstring) (e : CacheEntry) :
  lru_find c k = Some e -> ce_key e = k /\ In e c.
Proof.
  induction c as [|x c IH]; simpl; [discriminate|].
  destruct (js_eqb (ce_key x) k) eqn:E.
  - intros H. inversion H; subst. apply js_eqb_eq in E. auto.
  - intros H. destruct (IH H). auto.
Qed.

Lemma lru_find_delete (c : LRUCache) (k : jsstring) :
  lru_find (lru_delete c k) k = None.
Proof.
  induction c as [|x c IH]; [reflexivity|]. simpl.
  destruct (js_eqb (ce_key x) k) eqn:E; simpl; [exact IH|].
  now rewrite E.
Qed.

Lemma lru_find_app_none (c1 c2 : LRUCache) (k : jsstring) :
  lru_find c1 k = None -> lru_find (c1 ++ c2) k = lru_find c2 k.
Proof.
  induction c1 as [|x c1 IH]; [reflexivity|]. simpl.
  destruct (js_eqb (ce_key x) k); [discriminate|exact IH].
Qed.

Lemma lru_find_tl_none (c : LRUCache) (k : jsstring) :
  lru_find c k = None -> lru_find (tl c) k = None.
Proof.
  destruct c as [|x c]; [reflexivity|]. simpl.
  destruct (js_eqb (ce_key x) k); [discriminate|auto].
Qed.

Lemma lru_delete_none (c : LRUCache) (k : jsstring) :
  lru_find c k = None -> lru_delete c k = c.
Proof.
  induction c as [|x c IH]; [reflexivity|]. simpl.
  destruct (js_eqb (ce_key x) k); [discriminate|].
  intros H. simpl. now rewrite IH.
Qed.

Lemma lru_delete_length (c : LRUCache) (k : jsstring) :
  List.length (lru_delete c k) <= List.length c.
Proof. apply filter_length_le. Qed.

Lemma lru_delete_some_length (c : LRUCache) (k : jsstring) (e : CacheEntry) :
  lru_find c k = Some e -> S (List.length (lru_delete c k)) <= List.length c.
Proof.
  induction c as [|x c IH]; simpl; [discriminate|].
  destruct (js_eqb (ce_key x) k); simpl.
  - intros _. pose proof (lru_delete_length c k). unfold lru_delete in *. lia.
  - intros H. apply IH in H. unfold lru_delete in *. lia.
Qed.

(** ** Liveness *)

Lemma isStale_false_iff (now : N) (e : CacheEntry) :
  isStale now e = false <->
  ce_start e = 0%N \/ (now - ce_start e <= lru_ttl)%N.
Proof.
  unfold isStale. rewrite andb_false_iff, negb_false_iff, N.eqb_eq, N.ltb_ge.
  reflexivity.
Qed.

Lemma isStale_within_ttl (now : N) (e : CacheEntry) :
  (now - ce_start e <= lru_ttl)%N -> isStale now e = false.
Proof. intros H. apply isStale_false_iff. now right. Qed.

Lemma isStale_after_ttl (now : N) (e : CacheEntry) :
  ce_start e <> 0%N -> (lru_ttl < now - ce_start e)%N -> isStale now e = true.
Proof.
  intros H0 H. unfold isStale. apply andb_true_iff. split.
  - now apply negb_true_iff, N.eqb_neq.
  - now apply N.ltb_lt.
Qed.

(** ** One call, case by case *)

Lemma getProviderInstance_not_found (Providers : ProviderMap) (now : N)
  (st : ProviderState) (providerName : jsstring) :
  map_get Providers providerName = None ->
  getProviderInstance Providers now st providerName
  = (inl (mkThrown (js "Provider " ++ providerName ++ js " not found")), st).
Proof. unfold getProviderInstance. now intros ->. Qed.

Lemma getProviderInstance_hit (Providers : ProviderMap) (now : N)
  (st : ProviderState) (providerName : jsstring) (provider : ModelProvider)
  (e : CacheEntry) :
  map_get Providers providerName = Some provider ->
  lru_find (providerCache st) (name provider) = Some e ->
  isStale now e = false ->
  getProviderInstance Providers now st providerName
  = (inr (ce_value e),
     mkProviderState (lru_delete (providerCache st) (name provider) ++ [e])
       (constructed st)).
Proof.
  intros Hp Hf Hs. unfold getProviderInstance, lru_get.
  now rewrite Hp, Hf, Hs.
Qed.

Lemma getProviderInstance_stale (Providers : ProviderMap) (now : N)
  (st : ProviderState) (providerName : jsstring) (provider : ModelProvider)
  (e : CacheEntry) :
  map_get Providers providerName = Some provider ->
  lru_find (providerCache st) (name provider) = Some e ->
  isStale now e = true ->
  getProviderInstance Providers now st providerName
  = let openai :=
      mkOpenAI (constructed st) (api_base_url provider) (api_key provider) in
    (inr openai,
     mkProviderState
       ((if Nat.leb lru_max
               (List.length (lru_delete (providerCache st) (name provider)))
         then tl (lru_delete (providerCache st) (name provider))
         else lru_delete (providerCache st) (name provider))
        ++ [mkCacheEntry (name provider) openai now])
       (S (constructed st))).
Proof.
  intros Hp Hf Hs. unfold getProviderInstance, lru_get, lru_set.
  now rewrite Hp, Hf, Hs, lru_find_delete.
Qed.

Lemma getProviderInstance_absent (Providers : ProviderMap) (now : N)
  (st : ProviderState) (providerName : jsstring) (provider : ModelProvider) :
  map_get Providers providerName = Some provider ->
  lru_find (providerCache st) (name provider) = None ->
  getProviderInstance Providers now st providerName
  = let openai :=
      mkOpenAI (constructed st) (api_base_url provider) (api_key provider) in
    (inr openai,
     mkProviderState
       ((if Nat.leb lru_max (List.length (providerCache st))
         then tl (providerCache st) else providerCache st)
        ++ [mkCacheEntry (name provider) openai now])
       (S (constructed st))).
Proof.
  intros Hp Hf. unfold getProviderInstance, lru_get, lru_set.
  now rewrite Hp, Hf, Hf.
Qed.

Lemma lru_find_evict_none (c : LRUCache) (k : jsstring) :
  lru_find c k = None ->
  lru_find (if Nat.leb lru_max (List.length c) then tl c else c) k = None.
Proof.
  intros H. destruct (Nat.leb lru_max (List.length c)); [|exact H].
  now apply lru_find_tl_none.
Qed.

Lemma lru_find_last (others : LRUCache) (e : CacheEntry) :
  lru_find others (ce_key e) = None ->
  lru_find (others ++ [e]) (ce_key e) = Some e.
Proof.
  intros H. rewrite lru_find_app_none by exact H. simpl.
  now rewrite js_eqb_refl.
Qed.

(** After a successful call the returned client is cached under the
    provider's [name], as the most recently used entry. *)
Lemma getProviderInstance_cached (Providers : ProviderMap) (now : N)
  (st : ProviderState) (providerName : jsstring) (provider : ModelProvider) :
  map_get Providers providerName = Some provider ->
  exists e others,
    fst (getProviderInstance Providers now st providerName) = inr (ce_value e)
    /\ providerCache (snd (getProviderInstance Providers now st providerName))
       = others ++ [e]
    /\ ce_key e = name provider
    /\ lru_find
         (providerCache (snd (getProviderInstance Providers now st providerName)))
         (name provider) = Some e.
Proof.
  intros Hp.
  destruct (lru_find (providerCache st) (name provider)) as [e|] eqn:Hf.
  - destruct (lru_find_key _ _ _ Hf) as [Hk _].
    destruct (isStale now e) eqn:Hs.
    + rewrite (getProviderInstance_stale _ _ _ _ _ _ Hp Hf Hs). simpl.
      eexists (mkCacheEntry (name provider) _ now), _.
      split; [reflexivity|]. split; [reflexivity|]. split; [reflexivity|].
      apply (lru_find_last _ (mkCacheEntry (name provider) _ now)).
      apply lru_find_evict_none, lru_find_delete.
    + rewrite (getProviderInstance_hit _ _ _ _ _ _ Hp Hf Hs). simpl.
      exists e, (lru_delete (providerCache st) (name provider)).
      split; [reflexivity|]. split; [reflexivity|]. split; [exact Hk|].
      rewrite <- Hk. apply lru_find_last. rewrite Hk. apply lru_find_delete.
  - rewrite (getProviderInstance_absent _ _ _ _ _ Hp Hf). simpl.
    eexists (mkCacheEntry (name provider) _ now), _.
    split; [reflexivity|]. split; [reflexivity|]. split; [reflexivity|].
    apply (lru_find_last _ (mkCacheEntry (name provider) _ now)).
    apply lru_find_evict_none, Hf.
Qed.

Lemma evict_length (c : LRUCache) (x : CacheEntry) :
  List.length c <= lru_max ->
  List.length
    ((if Nat.leb lru_max (List.length c) then tl c else c) ++ [x]) <= lru_max.
Proof.
  intros H. unfold lru_max in *.
  destruct (Nat.leb 10 (List.length c)) eqn:Hl;
    rewrite length_app; cbn [List.length].
  - apply Nat.leb_le in Hl. destruct c; cbn [tl List.length] in *; lia.
  - apply Nat.leb_gt in Hl. lia.
Qed.

Lemma getProviderInstance_capacity (Providers : ProviderMap) (now : N)
  (st : ProviderState) (providerName : jsstring) :
  List.length (providerCache st) <= lru_max ->
  List.length
    (providerCache (snd (getProviderInstance Providers now st providerName)))
  <= lru_max.
Proof.
  intros Hcap.
  destruct (map_get Providers providerName) as [provider|] eqn:Hp.
  - destruct (lru_find (providerCache st) (name provider)) as [e|] eqn:Hf.
    + pose proof (lru_delete_some_length _ _ _ Hf) as Hd.
      destruct (isStale now e) eqn:Hs.
      * rewrite (getProviderInstance_stale _ _ _ _ _ _ Hp Hf Hs).
        cbn [snd providerCache]. apply evict_length. lia.
      * rewrite (getProviderInstance_hit _ _ _ _ _ _ Hp Hf Hs).
        cbn [snd providerCache]. rewrite length_app. simpl. lia.
    + rewrite (getProviderInstance_absent _ _ _ _ _ Hp Hf).
      cbn [snd providerCache]. now apply evict_length.
  - now rewrite (getProviderInstance_not_found _ _ _ _ Hp).
Qed.

Lemma callAll_capacity (Providers : ProviderMap) (calls : list (N * jsstring)) :
  forall st,
    List.length (providerCache st) <= lru_max ->
    List.length (providerCache (callAll Providers st calls)) <= lru_max.
Proof.
  induction calls as [|[now providerName] rest IH]; intros st H; [exact H|].
  simpl. apply IH. now apply getProviderInstance_capacity.
Qed.

Lemma key_in_find (c : LRUCache) (k : jsstring) :
  key_in k (cache_keys c)
  = match lru_find c k with Some _ => true | None => false end.
Proof.
  induction c as [|x c IH]; [reflexivity|]. simpl.
  replace (js_eqb k (ce_key x)) with (js_eqb (ce_key x) k).
  - destruct (js_eqb (ce_key x) k); [reflexivity|exact IH].
  - destruct (js_eqb (ce_key x) k) eqn:E.
    + apply js_eqb_eq in E. subst. now rewrite js_eqb_refl.
    + symmetry. apply js_eqb_neq. apply js_eqb_neq in E. congruence.
Qed.

Lemma cache_keys_delete (c : LRUCache) (k : jsstring) :
  cache_keys (lru_delete c k)
  = filter (fun k' => negb (js_eqb k' k)) (cache_keys c).
Proof.
  induction c as [|x c IH]; [reflexivity|]. simpl.
  destruct (js_eqb (ce_key x) k); simpl; [exact IH|].
  now rewrite <- IH.
Qed.

Lemma cache_keys_tl (c : LRUCache) : cache_keys (tl c) = tl (cache_keys c).
Proof. now destruct c. Qed.

(** The keys of the cache follow the least-recently-used discipline. *)
Lemma getProviderInstance_keys (Providers : ProviderMap) (now : N)
  (st : ProviderState) (providerName : jsstring) (provider : ModelProvider) :
  map_get Providers providerName = Some provider ->
  List.length (providerCache st) <= lru_max ->
  cache_keys
    (providerCache (snd (getProviderInstance Providers now st providerName)))
  = lru_touch (cache_keys (providerCache st)) (name provider).
Proof.
  intros Hp Hcap. unfold lru_touch. rewrite key_in_find.
  destruct (lru_find (providerCache st) (name provider)) as [e|] eqn:Hf.
  - destruct (lru_find_key _ _ _ Hf) as [Hk _].
    pose proof (lru_delete_some_length _ _ _ Hf) as Hd.
    destruct (isStale now e) eqn:Hs.
    + rewrite (getProviderInstance_stale _ _ _ _ _ _ Hp Hf Hs).
      cbn [snd providerCache].
      replace (Nat.leb lru_max
                 (List.length (lru_delete (providerCache st) (name provider))))
        with false by (symmetry; apply Nat.leb_gt; lia).
      unfold cache_keys at 1. rewrite map_app. fold (cache_keys
        (lru_delete (providerCache st) (name provider))).
      now rewrite cache_keys_delete.
    + rewrite (getProviderInstance_hit _ _ _ _ _ _ Hp Hf Hs).
      cbn [snd providerCache]. unfold cache_keys at 1. rewrite map_app.
      fold (cache_keys (lru_delete (providerCache st) (name provider))).
      rewrite cache_keys_delete. simpl. now rewrite Hk.
  - rewrite (getProviderInstance_absent _ _ _ _ _ Hp Hf).
    cbn [snd providerCache]. unfold cache_keys at 1. rewrite map_app.
    unfold cache_keys at 1. rewrite length_map.
    destruct (Nat.leb lru_max (List.length (providerCache st))).
    + fold (cache_keys (tl (providerCache st))). now rewrite cache_keys_tl.
    + reflexivity.
Qed.

(** A second lookup while the entry made by the first is live. *)
Lemma getProviderInstance_again (Providers : ProviderMap) (t0 t1 : N)
  (st : ProviderState) (providerName : jsstring) (provider : ModelProvider) :
  map_get Providers providerName = Some provider ->
  exists e,
    lru_find
      (providerCache (snd (getProviderInstance Providers t0 st providerName)))
      (name provider) = Some e /\
    fst (getProviderInstance Providers t0 st providerName) = inr (ce_value e) /\
    (isStale t1 e = false ->
     fst (getProviderInstance Providers t1
            (snd (getProviderInstance Providers t0 st providerName))
            providerName)
     = inr (ce_value e) /\
     constructed
       (snd (getProviderInstance Providers t1
               (snd (getProviderInstance Providers t0 st providerName))
               providerName))
     = constructed (snd (getProviderInstance Providers t0 st providerName))).
Proof.
  intros Hp.
  destruct (getProviderInstance_cached Providers t0 st providerName provider Hp)
    as [e [others [Hfst [_ [_ Hfind]]]]].
  exists e. split; [exact Hfind|]. split; [exact Hfst|].
  intros Hlive.
  now rewrite (getProviderInstance_hit _ _ _ _ _ _ Hp Hfind Hlive).
Qed.

(** A first lookup that constructs, then a second within the time to
    live. *)
Lemma getProviderInstance_twice (Providers : ProviderMap) (t0 t1 : N)
  (st : ProviderState) (providerName : jsstring) (provider : ModelProvider) :
  map_get Providers providerName = Some provider ->
  lru_find (providerCache st) (name provider) = None ->
  (t1 - t0 <= lru_ttl)%N ->
  fst (getProviderInstance Providers t0 st providerName)
    = inr (mkOpenAI (constructed st) (api_base_url provider) (api_key provider))
  /\ fst (getProviderInstance Providers t1
            (snd (getProviderInstance Providers t0 st providerName))
            providerName)
     = fst (getProviderInstance Providers t0 st providerName)
  /\ constructed
       (snd (getProviderInstance Providers t1
               (snd (getProviderInstance Providers t0 st providerName))
               providerName))
     = S (constructed st).
Proof.
  intros Hp Hf Ht.
  rewrite (getProviderInstance_absent _ _ _ _ _ Hp Hf). cbn [fst snd].
  split; [reflexivity|].
  set (openai := mkOpenAI (constructed st) (api_base_url provider)
                   (api_key provider)).
  set (e := mkCacheEntry (name provider) openai t0).
  assert (Hfind : lru_find
            ((if Nat.leb lru_max (List.length (providerCache st))
              then tl (providerCache st) else providerCache st) ++ [e])
            (name provider) = Some e).
  { apply (lru_find_last _ e). apply lru_find_evict_none, Hf. }
  assert (Hlive : isStale t1 e = false).
  { apply isStale_within_ttl. exact Ht. }
  rewrite (getProviderInstance_hit Providers t1
             (mkProviderState
                ((if Nat.leb lru_max (List.length (providerCache st))
                  then tl (providerCache st) else providerCache st) ++ [e])
                (S (constructed st)))
             providerName provider e Hp Hfind Hlive).
  split; reflexivity.
Qed.

(** ** The registry *)

Lemma map_get_set_same (m : ProviderMap) (k : jsstring) (v : ModelProvider) :
  map_get (map_set m k v) k = Some v.
Proof.
  induction m as [|[k' v'] m IH]; simpl.
  - now rewrite js_eqb_refl.
  - destruct (js_eqb k' k) eqn:E; simpl; now rewrite E.
Qed.

Lemma map_get_set_other (m : ProviderMap) (k k' : jsstring) (v : ModelProvider) :
  k <> k' -> map_get (map_set m k v) k' = map_get m k'.
Proof.
  intros Hne. induction m as [|[k0 v0] m IH]; simpl.
  - now rewrite (proj2 (js_eqb_neq k k') Hne).
  - destruct (js_eqb k0 k) eqn:E; simpl.
    + apply js_eqb_eq in E. subst k0.
      now rewrite (proj2 (js_eqb_neq k k') Hne).
    + destruct (js_eqb k0 k'); [reflexivity|exact IH].
Qed.

Lemma map_set_keyed (m : ProviderMap) (p : ModelProvider) :
  (forall k v, In (k, v) m -> name v = k) ->
  forall k v, In (k, v) (map_set m (name p) p) -> name v = k.
Proof.
  induction m as [|[k0 v0] m IH]; intros Hm k v; simpl.
  - intros [H|[]]. now inversion H.
  - destruct (js_eqb k0 (name p)) eqn:E.
    + intros [H|H].
      * inversion H; subst. apply js_eqb_eq in E. congruence.
      * apply Hm. now right.
    + intros [H|H].
      * apply Hm. now left.
      * apply IH; [|exact H]. intros k1 v1 H1. apply Hm. now right.
Qed.

Lemma map_set_head (m : ProviderMap) (k : jsstring) (v : ModelProvider) :
  exists k0 v0 rest, map_set m k v = (k0, v0) :: rest.
Proof.
  destruct m as [|[k0 v0] m]; simpl; [now eexists _, _, _|].
  destruct (js_eqb k0 k); now eexists _, _, _.
Qed.

Lemma register_fold (providers : list ModelProvider) : forall m,
  (forall k v, In (k, v) m -> name v = k) ->
  (forall k v,
     In (k, v)
       (fold_left (fun m provider => map_set m (name provider) provider)
          providers m) -> name v = k) /\
  (m <> [] ->
   fold_left (fun m provider => map_set m (name provider) provider) providers m
   <> []).
Proof.
  induction providers as [|p ps IH]; intros m Hm; simpl; [tauto|].
  destruct (IH (map_set m (name p) p) (map_set_keyed m p Hm)) as [H1 H2].
  split; [exact H1|]. intros _. apply H2.
  destruct (map_set_head m (name p) p) as [k0 [v0 [rest ->]]]. discriminate.
Qed.

(** The registry before "default" is added: every key is the [name] of its
    provider, and with one provider configured it is not empty. *)
Lemma registerProviders_keyed (config : Config) :
  (forall k v, In (k, v) (registerProviders config) -> name v = k) /\
  (forall first others, cfg_Providers config = Some (first :: others) ->
                        registerProviders config <> []).
Proof.
  unfold registerProviders. destruct (cfg_Providers config) as [providers|].
  - split.
    + apply (register_fold providers []). intros k v [].
    + intros first others H. inversion H; subst. simpl.
      apply (register_fold others). 
      * apply (map_set_keyed [] first). intros k v [].
      * discriminate.
  - split; [intros k v []|discriminate].
Qed.

(** When "default" is an alias, it and the provider's own name resolve to
    the same provider. *)
Lemma default_alias (config : Config) (first : ModelProvider)
  (others : list ModelProvider) :
  opt_truthy (OPENAI_API_KEY config) && opt_truthy (OPENAI_BASE_URL config)
    && opt_truthy (OPENAI_MODEL config) = false ->
  cfg_Providers config = Some (first :: others) ->
  exists provider rest,
    registerProviders config = (name provider, provider) :: rest /\
    map_get (buildProviders config) (js "default") = Some provider /\
    map_get (buildProviders config) (name provider) = Some provider.
Proof.
  intros Hkeys Hcfg. unfold buildProviders. rewrite Hkeys.
  destruct (registerProviders_keyed config) as [Hkeyed Hne].
  specialize (Hne first others Hcfg).
  destruct (registerProviders config) as [|[k0 p] rest] eqn:E; [congruence|].
  assert (Hk : name p = k0) by (apply Hkeyed; now left). subst k0.
  exists p, rest. split; [reflexivity|]. split; [apply map_get_set_same|].
  destruct (js_eqb (js "default") (name p)) eqn:Hd.
  - apply js_eqb_eq in Hd. rewrite <- Hd. apply map_get_set_same.
  - rewrite map_get_set_other by (now apply js_eqb_neq).
    simpl. now rewrite js_eqb_refl.
Qed.

Lemma getProviderInstance_same_provider (Providers : ProviderMap) (now : N)
  (st : ProviderState) (n1 n2 : jsstring) (provider : ModelProvider) :
  map_get Providers n1 = Some provider ->
  map_get Providers n2 = Some provider ->
  getProviderInstance Providers now st n1
  = getProviderInstance Providers now st n2.
Proof. unfold getProviderInstance. now intros -> ->. Qed.

(* ===================================================================== *)
(** * Claims about the provider cache *)
(* ===================================================================== *)

(** C9: [getProviderInstance] throws its not-found error exactly when the
    name is absent from the registry; an entry is live as long as no more
    than two hours have passed since it was set (and, in the package, for
    ever when it was set at clock 0); a lookup that finds a live
    entry returns its client and constructs nothing, so a lookup repeated
    within two hours of the construction returns the identical client; the
    cache never holds more than ten entries; a lookup that has to insert
    into a full cache drives out the first entry of the cache, which is
    the least recently used one because every lookup moves the key it uses
    to the end and keeps the order of the others. *)
Theorem C9_provider_cache :
  (forall Providers now st providerName,
     (exists e, fst (getProviderInstance Providers now st providerName) = inl e)
     <-> map_get Providers providerName = None) /\
  (forall now e,
     ((now - ce_start e <= 2 * 60 * 60 * 1000)%N -> isStale now e = false) /\
     (isStale now e = false <->
      ce_start e = 0%N \/ (now - ce_start e <= 2 * 60 * 60 * 1000)%N)) /\
  (forall Providers now st providerName provider e,
     map_get Providers providerName = Some provider ->
     lru_find (providerCache st) (name provider) = Some e ->
     isStale now e = false ->
     getProviderInstance Providers now st providerName
     = (inr (ce_value e),
        mkProviderState (lru_delete (providerCache st) (name provider) ++ [e])
          (constructed st))) /\
  (forall Providers t0 t1 st providerName provider,
     map_get Providers providerName = Some provider ->
     lru_find (providerCache st) (name provider) = None ->
     (t1 - t0 <= lru_ttl)%N ->
     fst (getProviderInstance Providers t0 st providerName)
       = inr (mkOpenAI (constructed st) (api_base_url provider)
                (api_key provider))
     /\ fst (getProviderInstance Providers t1
               (snd (getProviderInstance Providers t0 st providerName))
               providerName)
        = fst (getProviderInstance Providers t0 st providerName)
     /\ constructed
          (snd (getProviderInstance Providers t1
                  (snd (getProviderInstance Providers t0 st providerName))
                  providerName))
        = S (constructed st)) /\
  (forall Providers calls,
     List.length (providerCache (callAll Providers newProviderState calls))
     <= 10) /\
  (forall Providers now st providerName provider,
     map_get Providers providerName = Some provider ->
     List.length (providerCache st) = 10 ->
     lru_find (providerCache st) (name provider) = None ->
     providerCache (snd (getProviderInstance Providers now st providerName))
     = tl (providerCache st)
       ++ [mkCacheEntry (name provider)
             (mkOpenAI (constructed st) (api_base_url provider)
                (api_key provider)) now]) /\
  (forall Providers now st providerName provider,
     map_get Providers providerName = Some provider ->
     List.length (providerCache st) <= 10 ->
     cache_keys
       (providerCache (snd (getProviderInstance Providers now st providerName)))
     = lru_touch (cache_keys (providerCache st)) (name provider)).
Proof.
  split; [|split; [|split; [|split; [|split; [|split]]]]].
  - intros Providers now st providerName. split.
    + intros [e He]. destruct (map_get Providers providerName) as [p|] eqn:Hp;
        [|reflexivity].
      destruct (getProviderInstance_cached Providers now st providerName p Hp)
        as [e' [others [Hfst _]]].
      congruence.
    + intros Hp. rewrite (getProviderInstance_not_found _ _ _ _ Hp).
      now eexists.
  - intros now e. split; [apply isStale_within_ttl|apply isStale_false_iff].
  - exact getProviderInstance_hit.
  - exact getProviderInstance_twice.
  - intros Providers calls. apply (callAll_capacity Providers calls).
    simpl. unfold lru_max. lia.
  - intros Providers now st providerName provider Hp Hlen Hf.
    rewrite (getProviderInstance_absent _ _ _ _ _ Hp Hf).
    cbn [snd providerCache]. now rewrite Hlen.
  - exact getProviderInstance_keys.
Qed.

Lemma C9_witness :
  getProviderInstance eleven_providers 11
    (callAll eleven_providers newProviderState
       [(1, js "p0"); (2, js "p1"); (3, js "p2"); (4, js "p3"); (5, js "p4");
        (6, js "p5"); (7, js "p6"); (8, js "p7"); (9, js "p8"); (10, js "p9")]%N)
    (js "p0")
  = (inr (mkOpenAI 0 (js "https://host/0") (js "key")),
     mkProviderState
       (lru_delete
          (providerCache
             (callAll eleven_providers newProviderState
                [(1, js "p0"); (2, js "p1"); (3, js "p2"); (4, js "p3"); (5, js "p4");
                 (6, js "p5"); (7, js "p6"); (8, js "p7"); (9, js "p8"); (10, js "p9")]%N))
          (name (provider_n 0))
        ++ [mkCacheEntry (js "p0") (mkOpenAI 0 (js "https://host/0") (js "key")) 1])
       10).
Proof.
  apply (proj1 (proj2 (proj2 C9_provider_cache)) eleven_providers 11%N
           (callAll eleven_providers newProviderState
              [(1, js "p0"); (2, js "p1"); (3, js "p2"); (4, js "p3"); (5, js "p4");
               (6, js "p5"); (7, js "p6"); (8, js "p7"); (9, js "p8"); (10, js "p9")]%N)
           (js "p0") (provider_n 0)
           (mkCacheEntry (js "p0") (mkOpenAI 0 (js "https://host/0") (js "key")) 1)).
  - reflexivity.
  - reflexivity.
  - reflexivity.
Defined.

(** Ten providers used in turn fill the cache; the eleventh drives out the
    one used first; had that one been used again in between, the second
    would go. *)
Lemma eleventh_provider_evicts_oldest :
  cache_keys
    (providerCache
       (callAll eleven_providers newProviderState
          [(0, js "p0"); (1, js "p1"); (2, js "p2"); (3, js "p3"); (4, js "p4");
           (5, js "p5"); (6, js "p6"); (7, js "p7"); (8, js "p8"); (9, js "p9");
           (10, js "p10")]%N))
  = [js "p1"; js "p2"; js "p3"; js "p4"; js "p5"; js "p6"; js "p7"; js "p8";
     js "p9"; js "p10"] /\
  cache_keys
    (providerCache
       (callAll eleven_providers newProviderState
          [(0, js "p0"); (1, js "p1"); (2, js "p2"); (3, js "p3"); (4, js "p4");
           (5, js "p5"); (6, js "p6"); (7, js "p7"); (8, js "p8"); (9, js "p9");
           (10, js "p0"); (11, js "p10")]%N))
  = [js "p2"; js "p3"; js "p4"; js "p5"; js "p6"; js "p7"; js "p8"; js "p9";
     js "p0"; js "p10"].
Proof. split; reflexivity. Qed.

(** C10: when "default" is registered as an alias of the first configured
    provider, "default" and the provider's own name resolve to the same
    provider, every lookup by one name has the result and the effect of the
    lookup by the other, and two lookups by these names, in any order and
    within the time to live, return the identical client, construct once
    and leave a single cache entry, keyed by the provider's [name]. *)
Theorem C10_default_alias_shares_client (config : Config)
  (first : ModelProvider) (others : list ModelProvider) :
  opt_truthy (OPENAI_API_KEY config) && opt_truthy (OPENAI_BASE_URL config)
    && opt_truthy (OPENAI_MODEL config) = false ->
  cfg_Providers config = Some (first :: others) ->
  exists provider,
    map_get (buildProviders config) (js "default") = Some provider /\
    map_get (buildProviders config) (name provider) = Some provider /\
    (forall now st,
       getProviderInstance (buildProviders config) now st (js "default")
       = getProviderInstance (buildProviders config) now st (name provider)) /\
    (forall t0 t1 n1 n2,
       n1 = js "default" \/ n1 = name provider ->
       n2 = js "default" \/ n2 = name provider ->
       (t1 - t0 <= lru_ttl)%N ->
       fst (getProviderInstance (buildProviders config) t0 newProviderState n1)
         = inr (mkOpenAI 0 (api_base_url provider) (api_key provider)) /\
       getProviderInstance (buildProviders config) t1
         (snd (getProviderInstance (buildProviders config) t0
                 newProviderState n1)) n2
       = (inr (mkOpenAI 0 (api_base_url provider) (api_key provider)),
          mkProviderState
            [mkCacheEntry (name provider)
               (mkOpenAI 0 (api_base_url provider) (api_key provider)) t0]
            1)).
Proof.
  intros Hkeys Hcfg.
  destruct (default_alias config first others Hkeys Hcfg)
    as [provider [rest [_ [Hd Hn]]]].
  exists provider. split; [exact Hd|]. split; [exact Hn|]. split.
  - intros now st. now apply (getProviderInstance_same_provider _ _ _ _ _ provider).
  - intros t0 t1 n1 n2 H1 H2 Ht.
    assert (R1 : map_get (buildProviders config) n1 = Some provider)
      by (destruct H1; now subst).
    assert (R2 : map_get (buildProviders config) n2 = Some provider)
      by (destruct H2; now subst).
    rewrite (getProviderInstance_absent _ t0 newProviderState n1 provider R1
               eq_refl).
    unfold lru_max, newProviderState.
    cbn [fst snd providerCache constructed List.length Nat.leb app].
    split; [reflexivity|].
    set (e := mkCacheEntry (name provider)
                (mkOpenAI 0 (api_base_url provider) (api_key provider)) t0).
    assert (Hlive : isStale t1 e = false)
      by (now apply isStale_within_ttl).
    assert (Hfind : lru_find [e] (name provider) = Some e)
      by (simpl; now rewrite js_eqb_refl).
    rewrite (getProviderInstance_hit (buildProviders config) t1
               (mkProviderState [e] 1) n2 provider e R2 Hfind Hlive).
    simpl. now rewrite js_eqb_refl.
Qed.

Lemma C10_witness :
  exists provider,
    map_get (buildProviders eleven_config) (js "default") = Some provider /\
    map_get (buildProviders eleven_config) (name provider) = Some provider /\
    (forall now st,
       getProviderInstance (buildProviders eleven_config) now st (js "default")
       = getProviderInstance (buildProviders eleven_config) now st
           (name provider)) /\
    (forall t0 t1 n1 n2,
       n1 = js "default" \/ n1 = name provider ->
       n2 = js "default" \/ n2 = name provider ->
       (t1 - t0 <= lru_ttl)%N ->
       fst (getProviderInstance (buildProviders eleven_config) t0
              newProviderState n1)
         = inr (mkOpenAI 0 (api_base_url provider) (api_key provider)) /\
       getProviderInstance (buildProviders eleven_config) t1
         (snd (getProviderInstance (buildProviders eleven_config) t0
                 newProviderState n1)) n2
       = (inr (mkOpenAI 0 (api_base_url provider) (api_key provider)),
          mkProviderState
            [mkCacheEntry (name provider)
               (mkOpenAI 0 (api_base_url provider) (api_key provider)) t0]
            1)).
Proof.
  apply (C10_default_alias_shares_client eleven_config (provider_n 0)
           (map provider_n [1; 2; 3; 4; 5; 6; 7; 8; 9; 10]%N)).
  - reflexivity.
  - reflexivity.
Defined.

(** The alias in use: "default" and "p0" share one client and one entry. *)
Lemma default_and_p0_share_entry :
  map_get eleven_providers (js "default") = Some (provider_n 0) /\
  callAll eleven_providers newProviderState [(0, js "default"); (5, js "p0")]%N
  = mkProviderState
      [mkCacheEntry (js "p0") (mkOpenAI 0 (js "https://host/0") (js "key")) 0]
      1.
Proof. split; reflexivity. Qed.

(* ===================================================================== *)
(** * Claim about the response writer *)
(* ===================================================================== *)

Section WriterCalls.

Variable Json : Type.
Variable JSON_stringify : Json -> jsstring.
Variable JSON_stringify_part : ContentPart Json -> jsstring.
Variable JSON_parse : jsstring -> option Json.

(** C1 on the code: [streamOpenAIResponse] is not called once per request.
    With a well-formed body and a provider name that is not registered it
    is never called, whatever the upstream would answer; the same with a
    registered provider and an upstream answer that is not [ok]: the
    [catch] block of the handler only logs.  When the translation throws,
    [formatRequest] hands the writer its one error chunk and calls [next()],
    so with a registered provider and a good upstream answer the writer is
    called a second time. *)
Theorem C1_writer_not_called_once (now : N) (model : jsstring)
  (fetched : Thrown + Response Json) (status : N) (reads : list (list N))
  (json : Thrown + Json) (completion : Json) :
  handleRequest JSON_stringify JSON_stringify_part JSON_parse
    eleven_providers now (Some (js "nope")) (body_hi Json model false) fetched
  = [] /\
  handleRequest JSON_stringify JSON_stringify_part JSON_parse
    eleven_providers now (Some (js "p0")) (body_hi Json model false)
    (inr (mkResponse false status reads json))
  = [] /\
  handleRequest JSON_stringify JSON_stringify_part JSON_parse
    eleven_providers now (Some (js "p0")) (body_null_message Json)
    (inr (mkResponse true 200 reads (inr completion)))
  = [mkWriterCall
       (ErrorCompletion Json
          [mkErrorChunk (js "error_" ++ decimal now) (now / 1000) (js "m")
             (js "chat.completion.chunk")
             (js "Error: Cannot read properties of null (reading 'content')")
             (js "stop")])
       (js "m");
     mkWriterCall (JsonCompletion completion) (js "m")].
Proof. repeat split; reflexivity. Qed.

End WriterCalls.

(* ===================================================================== *)
(** * Further properties of the validator *)
(* ===================================================================== *)

Lemma validateAt_length (xs : list Msg) (i : nat) :
  List.length (validateAt xs i) <= 1.
Proof.
  unfold validateAt. destruct (nth_error xs i) as [m|]; [|simpl; lia].
  destruct (is_assistant m), (tool_calls m) as [calls|];
    try (destruct (is_tool m);
         [destruct (hasImmediateToolCall xs i m)|]; simpl; lia).
  unfold validateAssistant.
  match goal with |- context [if ?c then _ else _] => destruct c end;
    simpl; lia.
Qed.

(** Pieces of length at most one that add up to a list of as many elements
    as there are pieces are the singletons of that list. *)
Lemma concat_singletons (A : Type) (pieces : list (list A)) : forall ys,
  (forall p, In p pieces -> List.length p <= 1) ->
  List.concat pieces = ys ->
  List.length pieces = List.length ys ->
  pieces = map (fun y => [y]) ys.
Proof.
  assert (Hlen : forall ps : list (list A),
            (forall p, In p ps -> List.length p <= 1) ->
            List.length (List.concat ps) <= List.length ps).
  { induction ps as [|p ps IH]; intros H; simpl; [lia|].
    rewrite length_app.
    pose proof (H p (or_introl eq_refl)).
    assert (List.length (List.concat ps) <= List.length ps)
      by (apply IH; intros q Hq; apply H; now right).
    lia. }
  induction pieces as [|p pieces IH]; intros ys Hp Hc Hl.
  - destruct ys; [reflexivity|discriminate].
  - simpl in Hc.
    assert (Hrest : List.length (List.concat pieces) <= List.length pieces)
      by (apply Hlen; intros q Hq; apply Hp; now right).
    pose proof (Hp p (or_introl eq_refl)) as Hp1.
    destruct p as [|a [|b p]]; simpl in *.
    + subst ys. lia.
    + destruct ys as [|y ys]; [discriminate|]. inversion Hc; subst.
      simpl. f_equal. apply IH; auto.
    + lia.
Qed.

(** A list the validator returns as it is has every message emitted as it
    is by the loop body. *)
Lemma validate_fixpoint_at (ys : list Msg) :
  validateOpenAIToolCalls ys = ys ->
  forall i y, nth_error ys i = Some y -> validateAt ys i = [y].
Proof.
  intros Hfix i y Hi.
  rewrite validate_flat_map, flat_map_concat_map in Hfix.
  assert (Hmap : map (validateAt ys) (seq 0 (List.length ys))
                 = map (fun y => [y]) ys).
  { apply concat_singletons.
    - intros p Hp. apply in_map_iff in Hp as [j [<- _]].
      apply validateAt_length.
    - exact Hfix.
    - now rewrite length_map, length_seq. }
  assert (Hlt : i < List.length ys) by (apply nth_error_Some; congruence).
  apply (f_equal (fun l => nth_error l i)) in Hmap.
  rewrite !nth_error_map, Hi in Hmap.
  rewrite nth_error_seq in Hmap.
  apply Nat.ltb_lt in Hlt. rewrite Hlt in Hmap. simpl in Hmap.
  now inversion Hmap.
Qed.

Lemma flat_map_singletons (f : nat -> list Msg) (l : list Msg) : forall k,
  (forall i x, nth_error l i = Some x -> f (k + i) = [x]) ->
  flat_map f (seq k (List.length l)) = l.
Proof.
  induction l as [|x l IH]; intros k H; [reflexivity|].
  simpl. rewrite <- (Nat.add_0_r k) at 1. rewrite (H 0 x eq_refl). simpl.
  f_equal. apply IH. intros i y Hi.
  replace (S k + i) with (k + S i) by lia. now apply H.
Qed.

Lemma validateAt_tool (xs : list Msg) (i : nat) (m : Msg) :
  nth_error xs i = Some m ->
  is_tool m = true ->
  validateAt xs i
  = if owner_matches (nearestNonTool (firstn i xs)) m then [m] else [].
Proof.
  intros Hi Ht. destruct (nth_error_split _ _ Hi) as [before [rest [-> <-]]].
  rewrite validateAt_middle, (tool_not_assistant _ Ht), Ht.
  rewrite firstn_app, firstn_all, Nat.sub_diag. simpl.
  now rewrite app_nil_r.
Qed.

(** The owner of a position, spelled out with positions. *)
Lemma owner_matches_position (xs : list Msg) (i : nat) (m : Msg) :
  i <= List.length xs ->
  (owner_matches (nearestNonTool (firstn i xs)) m = true <->
   exists k a calls call,
     k < i /\ nth_error xs k = Some a /\
     (forall j mj, k < j < i -> nth_error xs j = Some mj -> is_tool mj = true) /\
     is_assistant a = true /\ tool_calls a = Some calls /\
     In call calls /\ tool_call_id m = Some (tc_id call)).
Proof.
  intros Hi.
  assert (Hfirst : forall j, j < i ->
                     nth_error (firstn i xs) j = nth_error xs j).
  { intros j Hj. rewrite nth_error_firstn.
    apply Nat.ltb_lt in Hj. now rewrite Hj. }
  assert (Hlen : List.length (firstn i xs) = i)
    by (rewrite length_firstn; lia).
  split.
  - intros Ho. unfold owner_matches in Ho.
    destruct (nearestNonTool (firstn i xs)) as [a|] eqn:Hnear; [|discriminate].
    destruct (is_assistant a) eqn:Ha; [|discriminate].
    destruct (tool_calls a) as [calls|] eqn:Hc; [|discriminate].
    apply existsb_exists in Ho as [call [Hin Hid]].
    apply nearestNonTool_position in Hnear as [k [Hk [Hnt Hafter]]].
    assert (Hki : k < i)
      by (rewrite <- Hlen; apply nth_error_Some; congruence).
    exists k, a, calls, call. repeat split; auto.
    + now rewrite <- Hfirst.
    + intros j mj [Hkj Hji] Hj. apply (Hafter j mj Hkj). now rewrite Hfirst.
    + now apply id_matches_elim.
  - intros [k [a [calls [call [Hki [Hk [Hbetween [Ha [Hc [Hin Hid]]]]]]]]]].
    assert (Hnear : nearestNonTool (firstn i xs) = Some a).
    { apply nearestNonTool_position. exists k.
      split; [now rewrite Hfirst|].
      split; [now apply assistant_not_tool|].
      intros j mj Hkj Hj.
      assert (Hji : j < i)
        by (rewrite <- Hlen; apply nth_error_Some; congruence).
      apply (Hbetween j mj (conj Hkj Hji)). now rewrite <- Hfirst. }
    rewrite Hnear. unfold owner_matches. rewrite Ha, Hc.
    apply existsb_exists. exists call. split; [exact Hin|].
    now apply id_matches_intro.
Qed.

Lemma validateAt_assistant_kept (xs : list Msg) (i : nat) (a : Msg)
  (calls : list ToolCall) :
  nth_error xs i = Some a ->
  is_assistant a = true ->
  tool_calls a = Some calls ->
  (validateAt xs i = [a] <->
   calls <> [] /\
   forall call, In call calls ->
     hasImmediateToolMessage (immediateToolMessages (skipn (S i) xs)) call
     = true).
Proof.
  intros Hi Ha Hc. unfold validateAt. rewrite Hi, Ha, Hc.
  unfold validateAssistant.
  set (run := immediateToolMessages (skipn (S i) xs)).
  destruct (filter (hasImmediateToolMessage run) calls) as [|c valid] eqn:Hf.
  - split.
    + intros H.
      destruct (content_truthy (content (set_tool_calls a None))
                || has_tool_calls (set_tool_calls a None)); [|discriminate].
      inversion H as [H1]. apply (f_equal tool_calls) in H1.
      simpl in H1. congruence.
    + intros [Hne Hall]. destruct calls as [|c calls]; [congruence|].
      simpl in Hf. rewrite (Hall c (or_introl eq_refl)) in Hf. discriminate.
  - simpl. rewrite orb_true_r. split.
    + intros H. inversion H as [H1]. apply (f_equal tool_calls) in H1.
      simpl in H1. rewrite Hc in H1.
      assert (H2 : c :: valid = calls) by congruence.
      split; [intros E; rewrite E in H2; discriminate|].
      intros call Hin. rewrite <- H2, <- Hf in Hin.
      now apply filter_In in Hin.
    + intros [_ Hall]. rewrite filter_all_true in Hf by exact Hall.
      rewrite <- Hf. now rewrite set_tool_calls_same.
Qed.

Lemma hasImmediateToolMessage_exists (run : list Msg) (call : ToolCall) :
  hasImmediateToolMessage run call = true <->
  exists t, In t run /\ tool_call_id t = Some (tc_id call).
Proof.
  unfold hasImmediateToolMessage. rewrite existsb_exists. split.
  - intros [t [Hin Hid]]. exists t. split; [exact Hin|].
    now apply id_matches_elim.
  - intros [t [Hin Hid]]. exists t. split; [exact Hin|].
    now apply id_matches_intro.
Qed.

(** In what the validator returns, every assistant message that still has
    [tool_calls] has at least one, and each of its calls is answered by a
    tool message of the run right behind it. *)
Theorem validated_calls_answered (xs : list Msg) (i : nat) (a : Msg)
  (calls : list ToolCall) :
  nth_error (validateOpenAIToolCalls xs) i = Some a ->
  is_assistant a = true ->
  tool_calls a = Some calls ->
  calls <> [] /\
  forall call, In call calls ->
    exists t,
      In t (immediateToolMessages (skipn (S i) (validateOpenAIToolCalls xs)))
      /\ tool_call_id t = Some (tc_id call).
Proof.
  intros Hi Ha Hc.
  pose proof (validate_fixpoint_at (validateOpenAIToolCalls xs)
                (validate_idempotent xs) i a Hi) as Hkept.
  apply (validateAt_assistant_kept _ i a calls Hi Ha Hc) in Hkept
    as [Hne Hall].
  split; [exact Hne|]. intros call Hin.
  now apply hasImmediateToolMessage_exists, Hall.
Qed.

Lemma validated_calls_answered_witness :
  [call_t1] <> [] /\
  forall call, In call [call_t1] ->
    exists t,
      In t (immediateToolMessages
              (skipn 1 (validateOpenAIToolCalls [assistant_t1; tool_t1])))
      /\ tool_call_id t = Some (tc_id call).
Proof.
  apply (validated_calls_answered [assistant_t1; tool_t1] 0 assistant_t1
           [call_t1]); reflexivity.
Defined.

(** In what the validator returns, every tool message has an owner: the
    nearest message in front of it that is not a tool message is an
    assistant message one of whose calls carries its [tool_call_id]. *)
Theorem validated_tools_owned (xs : list Msg) (i : nat) (m : Msg) :
  nth_error (validateOpenAIToolCalls xs) i = Some m ->
  is_tool m = true ->
  exists k a calls call,
    k < i /\ nth_error (validateOpenAIToolCalls xs) k = Some a /\
    (forall j mj, k < j < i ->
       nth_error (validateOpenAIToolCalls xs) j = Some mj ->
       is_tool mj = true) /\
    is_assistant a = true /\ tool_calls a = Some calls /\
    In call calls /\ tool_call_id m = Some (tc_id call).
Proof.
  intros Hi Ht.
  pose proof (validate_fixpoint_at (validateOpenAIToolCalls xs)
                (validate_idempotent xs) i m Hi) as Hkept.
  rewrite (validateAt_tool _ i m Hi Ht) in Hkept.
  apply owner_matches_position.
  - apply Nat.lt_le_incl. apply nth_error_Some. congruence.
  - destruct (owner_matches _ m); [reflexivity|discriminate].
Qed.

Lemma validated_tools_owned_witness :
  exists k a calls call,
    k < 1 /\
    nth_error (validateOpenAIToolCalls [assistant_t1; tool_t1]) k = Some a /\
    (forall j mj, k < j < 1 ->
       nth_error (validateOpenAIToolCalls [assistant_t1; tool_t1]) j = Some mj ->
       is_tool mj = true) /\
    is_assistant a = true /\ tool_calls a = Some calls /\
    In call calls /\ tool_call_id tool_t1 = Some (tc_id call).
Proof.
  apply (validated_tools_owned [assistant_t1; tool_t1] 1 tool_t1); reflexivity.
Defined.

Lemma validateAt_other (xs : list Msg) (i : nat) (m : Msg) :
  nth_error xs i = Some m ->
  is_tool m = false ->
  (is_assistant m = false \/ tool_calls m = None) ->
  validateAt xs i = [m].
Proof.
  intros Hi Ht Hor. unfold validateAt. rewrite Hi, Ht.
  destruct Hor as [H|H]; rewrite H; [reflexivity|].
  now destruct (is_assistant m).
Qed.

(** A list in which every call is answered and every tool message is
    owned comes back from the validator as it is. *)
Lemma well_paired_fixpoint (xs : list Msg) :
  (forall i a calls,
     nth_error xs i = Some a -> is_assistant a = true ->
     tool_calls a = Some calls ->
     calls <> [] /\
     forall call, In call calls ->
       exists t, In t (immediateToolMessages (skipn (S i) xs))
                 /\ tool_call_id t = Some (tc_id call)) ->
  (forall i m,
     nth_error xs i = Some m -> is_tool m = true ->
     exists k a calls call,
       k < i /\ nth_error xs k = Some a /\
       (forall j mj, k < j < i -> nth_error xs j = Some mj ->
                     is_tool mj = true) /\
       is_assistant a = true /\ tool_calls a = Some calls /\
       In call calls /\ tool_call_id m = Some (tc_id call)) ->
  validateOpenAIToolCalls xs = xs.
Proof.
  intros Hcalls Htools. rewrite validate_flat_map.
  apply flat_map_singletons. intros i x Hi. simpl.
  destruct (is_tool x) eqn:Ht.
  - rewrite (validateAt_tool xs i x Hi Ht).
    replace (owner_matches (nearestNonTool (firstn i xs)) x) with true;
      [reflexivity|].
    symmetry. apply owner_matches_position.
    + apply Nat.lt_le_incl. apply nth_error_Some. congruence.
    + now apply Htools.
  - destruct (is_assistant x) eqn:Ha;
      [|apply validateAt_other; auto].
    destruct (tool_calls x) as [calls|] eqn:Hc;
      [|apply validateAt_other; auto].
    apply (validateAt_assistant_kept xs i x calls Hi Ha Hc).
    destruct (Hcalls i x calls Hi Ha Hc) as [Hne Hall].
    split; [exact Hne|]. intros call Hin.
    now apply hasImmediateToolMessage_exists, Hall.
Qed.

(** The lists the validator leaves unchanged are exactly the well paired
    ones: every assistant message with [tool_calls] has at least one call
    and each is answered in the run of tool messages right behind it, and
    every tool message has its call in the nearest message in front of it
    that is not a tool message. *)
Theorem validator_fixpoints (xs : list Msg) :
  validateOpenAIToolCalls xs = xs <->
  (forall i a calls,
     nth_error xs i = Some a -> is_assistant a = true ->
     tool_calls a = Some calls ->
     calls <> [] /\
     forall call, In call calls ->
       exists t, In t (immediateToolMessages (skipn (S i) xs))
                 /\ tool_call_id t = Some (tc_id call)) /\
  (forall i m,
     nth_error xs i = Some m -> is_tool m = true ->
     exists k a calls call,
       k < i /\ nth_error xs k = Some a /\
       (forall j mj, k < j < i -> nth_error xs j = Some mj ->
                     is_tool mj = true) /\
       is_assistant a = true /\ tool_calls a = Some calls /\
       In call calls /\ tool_call_id m = Some (tc_id call)).
Proof.
  split.
  - intros Hfix. split.
    + intros i a calls Hi Ha Hc.
      pose proof (validate_fixpoint_at xs Hfix i a Hi) as Hkept.
      apply (validateAt_assistant_kept xs i a calls Hi Ha Hc) in Hkept
        as [Hne Hall].
      split; [exact Hne|]. intros call Hin.
      now apply hasImmediateToolMessage_exists, Hall.
    + intros i m Hi Ht.
      pose proof (validate_fixpoint_at xs Hfix i m Hi) as Hkept.
      rewrite (validateAt_tool xs i m Hi Ht) in Hkept.
      apply owner_matches_position.
      * apply Nat.lt_le_incl. apply nth_error_Some. congruence.
      * destruct (owner_matches _ m); [reflexivity|discriminate].
  - intros [Hcalls Htools]. now apply well_paired_fixpoint.
Qed.

Lemma other_role_set_tool_calls (m : Msg) (tcs : option (list ToolCall)) :
  other_role (set_tool_calls m tcs) = other_role m.
Proof. reflexivity. Qed.

Lemma validateFrom_other_roles (ms : list Msg) : forall owner,
  filter other_role (validateFrom owner ms) = filter other_role ms.
Proof.
  induction ms as [|m rest IH]; intros owner; [reflexivity|].
  simpl validateFrom. simpl filter.
  destruct (is_assistant m) eqn:Ha, (tool_calls m) as [calls|] eqn:Hc.
  - rewrite filter_app, IH, validateAssistant_head.
    assert (Ho : other_role m = false)
      by (unfold other_role; rewrite Ha; apply andb_false_r).
    rewrite Ho.
    destruct (filter _ calls) as [|c valid].
    + destruct (content_truthy (content m)); simpl;
        rewrite ?other_role_set_tool_calls, ?Ho; reflexivity.
    + simpl. rewrite other_role_set_tool_calls, Ho. reflexivity.
  - rewrite (assistant_not_tool _ Ha). simpl. now rewrite IH.
  - destruct (is_tool m) eqn:Ht.
    + rewrite filter_app, IH.
      assert (Ho : other_role m = false)
        by (unfold other_role; rewrite Ht; reflexivity).
      rewrite Ho. destruct (owner_matches owner m); simpl; rewrite ?Ho;
        reflexivity.
    + simpl. now rewrite IH.
  - destruct (is_tool m) eqn:Ht.
    + rewrite filter_app, IH.
      assert (Ho : other_role m = false)
        by (unfold other_role; rewrite Ht; reflexivity).
      rewrite Ho. destruct (owner_matches owner m); simpl; rewrite ?Ho;
        reflexivity.
    + simpl. now rewrite IH.
Qed.

(** The messages that are neither tool nor assistant messages come out of
    the validator all of them, unchanged and in their order; and the
    validator never returns more messages than it got. *)
Theorem validator_keeps_other_roles (xs : list Msg) :
  filter other_role (validateOpenAIToolCalls xs) = filter other_role xs /\
  List.length (validateOpenAIToolCalls xs) <= List.length xs.
Proof.
  split.
  - rewrite validate_eq_validateFrom. apply validateFrom_other_roles.
  - rewrite validate_flat_map.
    assert (H : forall n k,
              List.length (flat_map (validateAt xs) (seq k n)) <= n).
    { induction n as [|n IH]; intros k; simpl; [lia|].
      rewrite length_app. pose proof (validateAt_length xs k).
      specialize (IH (S k)). lia. }
    apply H.
Qed.

(* ===================================================================== *)
(** * Further properties of the translation *)
(* ===================================================================== *)

Lemma in_firstn (A : Type) (n : nat) (l : list A) (x : A) :
  In x (firstn n l) -> In x l.
Proof.
  intros H. rewrite <- (firstn_skipn n l). apply in_or_app. now left.
Qed.

Lemma trim_truthy_of_nonspace (s : jsstring) (c : N) :
  In c s -> is_whitespace c = false -> js_truthy (trim s) = true.
Proof.
  intros Hin Hc. destruct (js_truthy (trim s)) eqn:E; [reflexivity|].
  apply trim_falsy in E. rewrite forallb_forall in E.
  rewrite (E c Hin) in Hc. discriminate.
Qed.

Section TranslationOrder.

Variable Json : Type.
Variable JSON_stringify : Json -> jsstring.
Variable JSON_stringify_part : ContentPart Json -> jsstring.

Lemma assistantParts_by_kind (parts : list (ContentPart Json)) :
  forall textContent toolCalls,
    assistantParts JSON_stringify parts textContent toolCalls
    = (textContent ++ textOfParts Json JSON_stringify parts,
       toolCalls ++ toolUseCalls Json JSON_stringify parts).
Proof.
  induction parts as [|part parts IH]; intros text calls; simpl.
  - now rewrite !app_nil_r.
  - destruct part as [t|id nm input|id result|ty]; rewrite IH; simpl;
      rewrite <- ?app_assoc; reflexivity.
Qed.

Lemma userParts_by_kind (parts : list (ContentPart Json)) :
  forall text tools,
    userParts JSON_stringify parts text tools
    = (text ++ textOfParts Json JSON_stringify parts,
       tools ++ toolResultMessages Json JSON_stringify parts).
Proof.
  induction parts as [|part parts IH]; intros text tools; simpl.
  - now rewrite !app_nil_r.
  - destruct part as [t|id nm input|id result|ty]; rewrite IH; simpl;
      rewrite <- ?app_assoc; reflexivity.
Qed.

Lemma translateMessage_user_array (parts : list (ContentPart Json)) :
  translateMessage JSON_stringify JSON_stringify_part
    (mkSourceMessage (js "user") (SourceArray parts))
  = (if js_truthy (trim (textOfParts Json JSON_stringify parts))
     then [mkMsg (js "user")
             (CStr (trim (textOfParts Json JSON_stringify parts))) None None]
     else [])
    ++ toolResultMessages Json JSON_stringify parts.
Proof.
  unfold translateMessage. simpl. rewrite userParts_by_kind. reflexivity.
Qed.

Lemma translateMessage_assistant_array (parts : list (ContentPart Json)) :
  translateMessage JSON_stringify JSON_stringify_part
    (mkSourceMessage (js "assistant") (SourceArray parts))
  = match js_truthy (trim (textOfParts Json JSON_stringify parts)),
          toolUseCalls Json JSON_stringify parts with
    | false, [] => []
    | true, [] =>
        [mkMsg (js "assistant")
           (CStr (trim (textOfParts Json JSON_stringify parts))) None None]
    | true, c :: calls =>
        [mkMsg (js "assistant")
           (CStr (trim (textOfParts Json JSON_stringify parts)))
           (Some (c :: calls)) None]
    | false, c :: calls =>
        [mkMsg (js "assistant") CNull (Some (c :: calls)) None]
    end.
Proof.
  unfold translateMessage. simpl.
  rewrite assistantParts_by_kind. simpl.
  destruct (js_truthy (trim (textOfParts Json JSON_stringify parts))) eqn:E;
    destruct (toolUseCalls Json JSON_stringify parts); simpl;
    rewrite ?E; reflexivity.
Qed.

(** An array content keeps the order of its parts: a user message becomes
    its trimmed text, if any, followed by one tool message per
    [tool_result] part in the order of the parts; an assistant message
    becomes one message whose [tool_calls] are its [tool_use] parts in the
    order of the parts, or nothing when it has neither text nor calls. *)
Theorem translateMessage_by_kind (parts : list (ContentPart Json)) :
  translateMessage JSON_stringify JSON_stringify_part
    (mkSourceMessage (js "user") (SourceArray parts))
  = (if js_truthy (trim (textOfParts Json JSON_stringify parts))
     then [mkMsg (js "user")
             (CStr (trim (textOfParts Json JSON_stringify parts))) None None]
     else [])
    ++ toolResultMessages Json JSON_stringify parts
  /\
  translateMessage JSON_stringify JSON_stringify_part
    (mkSourceMessage (js "assistant") (SourceArray parts))
  = match js_truthy (trim (textOfParts Json JSON_stringify parts)),
          toolUseCalls Json JSON_stringify parts with
    | false, [] => []
    | true, [] =>
        [mkMsg (js "assistant")
           (CStr (trim (textOfParts Json JSON_stringify parts))) None None]
    | true, c :: calls =>
        [mkMsg (js "assistant")
           (CStr (trim (textOfParts Json JSON_stringify parts)))
           (Some (c :: calls)) None]
    | false, c :: calls =>
        [mkMsg (js "assistant") CNull (Some (c :: calls)) None]
    end.
Proof.
  split;
    [apply translateMessage_user_array|apply translateMessage_assistant_array].
Qed.

Lemma toolResultMessages_tools (parts : list (ContentPart Json)) (t : Msg) :
  In t (toolResultMessages Json JSON_stringify parts) -> is_tool t = true.
Proof.
  unfold toolResultMessages. intros H. apply in_flat_map in H as [p [_ Hp]].
  destruct p as [x|id nm input|id result|ty]; try contradiction.
  destruct Hp as [<-|[]]. reflexivity.
Qed.

Lemma textOfParts_truthy (parts : list (ContentPart Json)) (text : JsValue Json) :
  In (PartText text) parts ->
  js_truthy (trim (textOfParts Json JSON_stringify parts)) = true.
Proof.
  intros Hin. apply (trim_truthy_of_nonspace _ 92%N); [|reflexivity].
  unfold textOfParts. apply in_flat_map. exists (PartText text).
  split; [exact Hin|]. apply in_or_app. right. now left.
Qed.

(** A user message that has a text part loses its tool results: its text
    becomes a user message placed in front of its tool messages, so the
    nearest non-tool message in front of each of them is that user
    message, and the validator drops every one of them, whatever comes
    before and after in the translated list. *)
Theorem user_text_orphans_tool_results (parts : list (ContentPart Json))
  (text : JsValue Json) (before after : list Msg) (j : nat) (t : Msg) :
  In (PartText text) parts ->
  nth_error (toolResultMessages Json JSON_stringify parts) j = Some t ->
  translateMessage JSON_stringify JSON_stringify_part
    (mkSourceMessage (js "user") (SourceArray parts))
  = mkMsg (js "user") (CStr (trim (textOfParts Json JSON_stringify parts)))
      None None
    :: toolResultMessages Json JSON_stringify parts
  /\
  validateAt
    (before
     ++ translateMessage JSON_stringify JSON_stringify_part
          (mkSourceMessage (js "user") (SourceArray parts))
     ++ after)
    (List.length before + S j)
  = [].
Proof.
  intros Htext Hj.
  pose proof (translateMessage_user_array parts) as Hu.
  rewrite (textOfParts_truthy parts text Htext) in Hu. simpl in Hu.
  rewrite Hu. split; [reflexivity|].
  set (userMsg := mkMsg (js "user")
                    (CStr (trim (textOfParts Json JSON_stringify parts)))
                    None None).
  set (tools := toolResultMessages Json JSON_stringify parts) in *.
  assert (Ht : is_tool t = true)
    by (apply (toolResultMessages_tools parts); eapply nth_error_In; eauto).
  pose proof (firstn_skipn_middle j tools Hj) as Hmid.
  assert (Hxs : before ++ (userMsg :: tools) ++ after
                = (before ++ userMsg :: firstn j tools)
                  ++ t :: (skipn (S j) tools ++ after)).
  { rewrite <- Hmid at 1. repeat rewrite <- app_assoc. simpl.
    repeat rewrite <- app_assoc. reflexivity. }
  assert (Hlen : List.length (before ++ userMsg :: firstn j tools)
                 = List.length before + S j).
  { rewrite length_app. simpl. rewrite length_firstn.
    assert (j < List.length tools) by (apply nth_error_Some; congruence).
    lia. }
  rewrite Hxs, <- Hlen, validateAt_middle.
  rewrite (tool_not_assistant _ Ht), Ht.
  replace (before ++ userMsg :: firstn j tools)
    with ((before ++ [userMsg]) ++ firstn j tools)
    by (rewrite <- app_assoc; reflexivity).
  rewrite nearestNonTool_skip_tools.
  - rewrite nearestNonTool_snoc. reflexivity.
  - intros u Hu'. apply (toolResultMessages_tools parts).
    apply (in_firstn _ j _ _ Hu').
Qed.

Lemma textOfParts_no_text (parts : list (ContentPart Json)) :
  (forall text, ~ In (PartText text) parts) ->
  textOfParts Json JSON_stringify parts = [].
Proof.
  induction parts as [|part parts IH]; intros H; [reflexivity|].
  simpl. rewrite IH by (intros t Ht; apply (H t); now right).
  destruct part as [t|id nm input|id result|ty]; try reflexivity.
  exfalso. apply (H t). now left.
Qed.

Lemma immediateToolMessages_all (l : list Msg) :
  (forall t, In t l -> is_tool t = true) -> immediateToolMessages l = l.
Proof.
  induction l as [|m l IH]; intros H; [reflexivity|]. simpl.
  rewrite (H m (or_introl eq_refl)). f_equal. apply IH.
  intros t Ht. apply H. now right.
Qed.

(** The tool round trip: an assistant message with [tool_use] parts
    followed by a user message made of [tool_result] parts only, each
    call answered by a result and each result answering a call, is
    translated to the assistant message with all its calls followed by all
    the tool messages, and the validator leaves this list as it is. *)
Theorem tool_round_trip (pa pu : list (ContentPart Json)) :
  toolUseCalls Json JSON_stringify pa <> [] ->
  (forall text, ~ In (PartText text) pu) ->
  (forall call, In call (toolUseCalls Json JSON_stringify pa) ->
     exists t, In t (toolResultMessages Json JSON_stringify pu)
               /\ tool_call_id t = Some (tc_id call)) ->
  (forall t, In t (toolResultMessages Json JSON_stringify pu) ->
     exists call, In call (toolUseCalls Json JSON_stringify pa)
                  /\ tool_call_id t = Some (tc_id call)) ->
  exists a,
    translateMessage JSON_stringify JSON_stringify_part
      (mkSourceMessage (js "assistant") (SourceArray pa)) = [a] /\
    is_assistant a = true /\
    tool_calls a = Some (toolUseCalls Json JSON_stringify pa) /\
    translateMessage JSON_stringify JSON_stringify_part
      (mkSourceMessage (js "user") (SourceArray pu))
    = toolResultMessages Json JSON_stringify pu /\
    validateOpenAIToolCalls (a :: toolResultMessages Json JSON_stringify pu)
    = a :: toolResultMessages Json JSON_stringify pu.
Proof.
  intros Hne Hnotext Hanswered Howned.
  pose proof (translateMessage_assistant_array pa) as Ha.
  pose proof (translateMessage_user_array pu) as Hu.
  rewrite (textOfParts_no_text pu Hnotext) in Hu. simpl in Hu.
  set (calls := toolUseCalls Json JSON_stringify pa) in *.
  set (tools := toolResultMessages Json JSON_stringify pu) in *.
  assert (Htools : forall t, In t tools -> is_tool t = true)
    by (intros t; apply toolResultMessages_tools).
  assert (Hex : exists a,
            translateMessage JSON_stringify JSON_stringify_part
              (mkSourceMessage (js "assistant") (SourceArray pa)) = [a]
            /\ is_assistant a = true /\ tool_calls a = Some calls).
  { rewrite Ha. destruct calls as [|c cs]; [congruence|].
    destruct (js_truthy (trim (textOfParts Json JSON_stringify pa)));
      eexists; repeat split; reflexivity. }
  destruct Hex as [a [Hta [Hassist Hcalls]]].
  exists a. split; [exact Hta|]. split; [exact Hassist|].
  split; [exact Hcalls|]. split; [exact Hu|].
  apply well_paired_fixpoint.
  - intros i x xcalls Hi Hx Hxc. destruct i as [|i]; simpl in Hi.
    + inversion Hi; subst x. rewrite Hcalls in Hxc. inversion Hxc; subst xcalls.
      split; [exact Hne|]. intros call Hin. simpl skipn.
      rewrite (immediateToolMessages_all tools Htools). now apply Hanswered.
    + apply nth_error_In in Hi. apply Htools in Hi.
      apply tool_not_assistant in Hi. congruence.
  - intros i m Hi Hm. destruct i as [|i]; simpl in Hi.
    + inversion Hi; subst m. apply assistant_not_tool in Hassist. congruence.
    + destruct (Howned m (nth_error_In _ _ Hi)) as [call [Hin Hid]].
      exists 0, a, calls, call. repeat split; auto; try lia.
      intros j mj [Hj1 Hj2] Hnth. destruct j as [|j]; [lia|].
      simpl in Hnth. apply Htools. eapply nth_error_In; eauto.
Qed.

End TranslationOrder.

Lemma user_text_orphans_tool_results_witness :
  translateMessage sample_stringify sample_stringify_part
    (mkSourceMessage (js "user")
       (SourceArray [PartText (VString SampleJson (js "Hi"));
                     PartToolResult (js "t1") (VString SampleJson (js "ok"))]))
  = mkMsg (js "user")
      (CStr (trim (textOfParts SampleJson sample_stringify
                     [PartText (VString SampleJson (js "Hi"));
                      PartToolResult (js "t1") (VString SampleJson (js "ok"))])))
      None None
    :: toolResultMessages SampleJson sample_stringify
         [PartText (VString SampleJson (js "Hi"));
          PartToolResult (js "t1") (VString SampleJson (js "ok"))]
  /\
  validateAt
    ([assistant_t1]
     ++ translateMessage sample_stringify sample_stringify_part
          (mkSourceMessage (js "user")
             (SourceArray [PartText (VString SampleJson (js "Hi"));
                           PartToolResult (js "t1")
                             (VString SampleJson (js "ok"))]))
     ++ [])
    (List.length [assistant_t1] + 1)
  = [].
Proof.
  apply (user_text_orphans_tool_results SampleJson sample_stringify
           sample_stringify_part
           [PartText (VString SampleJson (js "Hi"));
            PartToolResult (js "t1") (VString SampleJson (js "ok"))]
           (VString SampleJson (js "Hi")) [assistant_t1] [] 0 tool_t1).
  - left. reflexivity.
  - reflexivity.
Defined.

Lemma tool_round_trip_witness :
  exists a,
    translateMessage sample_stringify sample_stringify_part
      (mkSourceMessage (js "assistant")
         (SourceArray [PartToolUse (js "t1") (js "f") ObjectA1])) = [a] /\
    is_assistant a = true /\
    tool_calls a
    = Some (toolUseCalls SampleJson sample_stringify
              [PartToolUse (js "t1") (js "f") ObjectA1]) /\
    translateMessage sample_stringify sample_stringify_part
      (mkSourceMessage (js "user")
         (SourceArray [PartToolResult (js "t1") (VString SampleJson (js "ok"))]))
    = toolResultMessages SampleJson sample_stringify
        [PartToolResult (js "t1") (VString SampleJson (js "ok"))] /\
    validateOpenAIToolCalls
      (a :: toolResultMessages SampleJson sample_stringify
              [PartToolResult (js "t1") (VString SampleJson (js "ok"))])
    = a :: toolResultMessages SampleJson sample_stringify
             [PartToolResult (js "t1") (VString SampleJson (js "ok"))].
Proof.
  apply (tool_round_trip SampleJson sample_stringify sample_stringify_part
           [PartToolUse (js "t1") (js "f") ObjectA1]
           [PartToolResult (js "t1") (VString SampleJson (js "ok"))]).
  - discriminate.
  - intros text [H|[]]. discriminate.
  - intros call [<-|[]]. eexists. split; [left; reflexivity|reflexivity].
  - intros t [<-|[]]. eexists. split; [left; reflexivity|reflexivity].
Defined.

(* ===================================================================== *)
(** * Further properties of the cache annotation *)
(* ===================================================================== *)

Lemma annotateBlocks_twice (blocks : list Block) :
  annotateBlocks (annotateBlocks blocks) = annotateBlocks blocks.
Proof.
  unfold annotateBlocks.
  destruct (rev blocks) as [|b before] eqn:E.
  - now rewrite E.
  - destruct (js_eqb (b_type b) (js "text")) eqn:Ht.
    + rewrite rev_app_distr. simpl. rewrite Ht, rev_involutive. reflexivity.
    + now rewrite E, Ht.
Qed.

Lemma annotateMessage_twice (m : Msg) :
  annotateMessage (annotateMessage m) = annotateMessage m.
Proof.
  unfold annotateMessage.
  destruct (content m) as [| |s|bs] eqn:E; try (now rewrite E).
  - reflexivity.
  - unfold set_content. simpl. now rewrite annotateBlocks_twice.
Qed.

Lemma annotateMessage_keys (m : Msg) :
  role (annotateMessage m) = role m /\
  tool_calls (annotateMessage m) = tool_calls m /\
  tool_call_id (annotateMessage m) = tool_call_id m.
Proof. unfold annotateMessage. destruct (content m); repeat split. Qed.

(** The cache annotation touches the content of the last message and
    nothing else: the list keeps its length, every message in front of
    the last is the same, the last keeps its role, [tool_calls] and
    [tool_call_id]; and annotating twice is annotating once. *)
Theorem annotateLast_only_last_content (msgs : list Msg) :
  annotateLast (annotateLast msgs) = annotateLast msgs /\
  List.length (annotateLast msgs) = List.length msgs /\
  removelast (annotateLast msgs) = removelast msgs /\
  map role (annotateLast msgs) = map role msgs /\
  map tool_calls (annotateLast msgs) = map tool_calls msgs /\
  map tool_call_id (annotateLast msgs) = map tool_call_id msgs.
Proof.
  destruct msgs as [|m l] using rev_ind; [repeat split|].
  rewrite !annotateLast_snoc, annotateMessage_twice.
  rewrite !removelast_last, !length_app, !map_app. simpl.
  destruct (annotateMessage_keys m) as [H1 [H2 H3]].
  rewrite H1, H2, H3. repeat split.
Qed.


(* ===================================================================== *)
(** * The tool declarations *)
(* ===================================================================== *)

Lemma js_eqb_sym (a b : jsstring) : js_eqb a b = js_eqb b a.
Proof.
  destruct (js_eqb a b) eqn:E.
  - apply js_eqb_eq in E. subst. symmetry. apply js_eqb_refl.
  - symmetry. apply js_eqb_neq. apply js_eqb_neq in E. congruence.
Qed.

Lemma includes_sticker (x : jsstring) :
  includes [js "StickerRequest"] x = js_eqb x (js "StickerRequest").
Proof.
  unfold includes. cbn [existsb]. rewrite orb_false_r. apply js_eqb_sym.
Qed.

(** The forwarded tools are the declared ones without those named
    [StickerRequest], in the declared order, each with its name,
    description and input schema; an empty [tools] array is forwarded as
    an empty array, an absent one is not forwarded. *)
Theorem formatTools_drops_reserved (Json : Type) (tools : list (ToolDecl Json)) :
  formatTools (@None (list (ToolDecl Json))) = None /\
  formatTools (Some (@nil (ToolDecl Json))) = Some [] /\
  exists out,
    formatTools (Some tools) = Some out /\
    map (@fn_name Json) out
    = filter (fun n => negb (js_eqb n (js "StickerRequest")))
        (map (@tool_name Json) tools) /\
    (forall f, In f out <->
       exists item,
         In item tools /\ tool_name item <> js "StickerRequest" /\
         f = mkFunctionTool (tool_name item) (tool_description item)
               (tool_input_schema item)).
Proof.
  split; [reflexivity|]. split; [reflexivity|].
  eexists. split; [reflexivity|]. split.
  - induction tools as [|t l IH]; [reflexivity|]. cbn [filter map].
    rewrite includes_sticker.
    destruct (js_eqb (tool_name t) (js "StickerRequest")); cbn [negb map];
      now rewrite <- IH.
  - intros f. rewrite in_map_iff. split.
    + intros [item [<- Hin]]. apply filter_In in Hin as [Hin Hkeep].
      exists item. split; [exact Hin|]. split; [|reflexivity].
      rewrite includes_sticker in Hkeep.
      now apply negb_true_iff, js_eqb_neq in Hkeep.
    + intros [item [Hin [Hne ->]]]. exists item. split; [reflexivity|].
      apply filter_In. split; [exact Hin|]. rewrite includes_sticker.
      now apply negb_true_iff, js_eqb_neq.
Qed.

(* ===================================================================== *)
(** * Further properties of the provider registry *)
(* ===================================================================== *)

Lemma map_get_in (m : ProviderMap) (k : jsstring) (v : ModelProvider) :
  map_get m k = Some v -> In (k, v) m.
Proof.
  induction m as [|[k' v'] m IH]; simpl; [discriminate|].
  destruct (js_eqb k' k) eqn:E.
  - intros H. inversion H; subst. apply js_eqb_eq in E. subst. now left.
  - intros H. right. now apply IH.
Qed.

Lemma registerProviders_get_name (config : Config) (k : jsstring)
  (p : ModelProvider) :
  map_get (registerProviders config) k = Some p -> name p = k.
Proof.
  intros H. apply map_get_in in H.
  now apply (proj1 (registerProviders_keyed config)).
Qed.

Lemma registerProviders_empty (config : Config) :
  registerProviders config = [] <->
  cfg_Providers config = None \/ cfg_Providers config = Some [].
Proof.
  split.
  - intros H. destruct (cfg_Providers config) as [[|p ps]|] eqn:E; auto.
    exfalso. exact (proj2 (registerProviders_keyed config) p ps E H).
  - unfold registerProviders. intros [-> | ->]; reflexivity.
Qed.

(** Every name other than "default" that resolves, resolves to a provider
    whose [name] is that name. *)
Theorem registry_keyed_by_name (config : Config) (k : jsstring)
  (p : ModelProvider) :
  map_get (buildProviders config) k = Some p ->
  k <> js "default" ->
  name p = k.
Proof.
  unfold buildProviders. intros H Hk.
  assert (Hne : js "default" <> k) by congruence.
  destruct (opt_truthy (OPENAI_API_KEY config)
            && opt_truthy (OPENAI_BASE_URL config)
            && opt_truthy (OPENAI_MODEL config)).
  - rewrite map_get_set_other in H by exact Hne.
    now apply (registerProviders_get_name config).
  - destruct (registerProviders config) as [|[k0 p0] rest] eqn:E.
    + discriminate.
    + rewrite map_get_set_other in H by exact Hne.
      rewrite <- E in H. now apply (registerProviders_get_name config).
Qed.

Lemma registry_keyed_by_name_witness : name (provider_n 3) = js "p3".
Proof.
  apply (registry_keyed_by_name eleven_config (js "p3") (provider_n 3)).
  - reflexivity.
  - discriminate.
Defined.

(** "default" resolves whenever anything is registered: the registry is
    empty exactly when the three [OPENAI_] settings are not all set and no
    provider is configured, and otherwise "default" resolves; with the
    three settings it resolves to the provider built from them, also when
    a configured provider is called "default". *)
Theorem default_resolves_unless_empty (config : Config) :
  (buildProviders config = [] <->
   opt_truthy (OPENAI_API_KEY config) && opt_truthy (OPENAI_BASE_URL config)
     && opt_truthy (OPENAI_MODEL config) = false
   /\ (cfg_Providers config = None \/ cfg_Providers config = Some [])) /\
  (buildProviders config <> [] ->
   exists p, map_get (buildProviders config) (js "default") = Some p) /\
  (opt_truthy (OPENAI_API_KEY config) && opt_truthy (OPENAI_BASE_URL config)
     && opt_truthy (OPENAI_MODEL config) = true ->
   map_get (buildProviders config) (js "default")
   = Some (mkModelProvider (js "default") (opt_string (OPENAI_BASE_URL config))
             (opt_string (OPENAI_API_KEY config))
             [opt_string (OPENAI_MODEL config)])).
Proof.
  unfold buildProviders.
  destruct (opt_truthy (OPENAI_API_KEY config)
            && opt_truthy (OPENAI_BASE_URL config)
            && opt_truthy (OPENAI_MODEL config)) eqn:Hkeys.
  - split; [|split].
    + split.
      * intros H.
        destruct (map_set_head (registerProviders config) (js "default")
                    (mkModelProvider (js "default")
                       (opt_string (OPENAI_BASE_URL config))
                       (opt_string (OPENAI_API_KEY config))
                       [opt_string (OPENAI_MODEL config)]))
          as [k0 [v0 [rest E]]].
        rewrite E in H. discriminate.
      * intros [H _]. discriminate.
    + intros _. eexists. apply map_get_set_same.
    + intros _. apply map_get_set_same.
  - split; [|split].
    + rewrite <- registerProviders_empty.
      destruct (registerProviders config) as [|[k0 p0] rest] eqn:E.
      * tauto.
      * split; [|intros [_ H]; discriminate].
        intros H.
        destruct (map_set_head ((k0, p0) :: rest) (js "default") p0)
          as [k1 [v1 [rest1 E1]]].
        rewrite E1 in H. discriminate.
    + destruct (registerProviders config) as [|[k0 p0] rest] eqn:E.
      * intros H. congruence.
      * intros _. exists p0. apply map_get_set_same.
    + discriminate.
Qed.

Lemma find_app_first (A : Type) (f : A -> bool) (l1 l2 : list A) :
  find f (l1 ++ l2)
  = match find f l1 with Some x => Some x | None => find f l2 end.
Proof.
  induction l1 as [|x l1 IH]; [reflexivity|]. simpl.
  destruct (f x); [reflexivity|exact IH].
Qed.

Lemma register_fold_get (providers : list ModelProvider) (k : jsstring) :
  forall m,
    map_get
      (fold_left (fun m provider => map_set m (name provider) provider)
         providers m) k
    = match find (fun p => js_eqb (name p) k) (rev providers) with
      | Some p => Some p
      | None => map_get m k
      end.
Proof.
  induction providers as [|p ps IH]; intros m; [reflexivity|].
  simpl. rewrite IH, find_app_first.
  destruct (find (fun p0 => js_eqb (name p0) k) (rev ps)); [reflexivity|].
  simpl. destruct (js_eqb (name p) k) eqn:E.
  - apply js_eqb_eq in E. subst k. apply map_get_set_same.
  - apply map_get_set_other. now apply js_eqb_neq.
Qed.

(** Of several configured providers with the same [name], the last one is
    the one the name resolves to. *)
Theorem last_configured_provider_wins (config : Config)
  (providers : list ModelProvider) (k : jsstring) :
  cfg_Providers config = Some providers ->
  k <> js "default" ->
  map_get (buildProviders config) k
  = find (fun p => js_eqb (name p) k) (rev providers).
Proof.
  intros Hcfg Hk.
  assert (Hne : js "default" <> k) by congruence.
  assert (Hreg : map_get (registerProviders config) k
                 = find (fun p => js_eqb (name p) k) (rev providers)).
  { unfold registerProviders. rewrite Hcfg, register_fold_get.
    now destruct (find _ (rev providers)). }
  unfold buildProviders.
  destruct (opt_truthy (OPENAI_API_KEY config)
            && opt_truthy (OPENAI_BASE_URL config)
            && opt_truthy (OPENAI_MODEL config)).
  - now rewrite map_get_set_other by exact Hne.
  - destruct (registerProviders config) as [|[k0 p0] rest] eqn:E;
      [exact Hreg|].
    now rewrite map_get_set_other by exact Hne.
Qed.

Lemma last_configured_provider_wins_witness :
  map_get (buildProviders eleven_config) (js "p3")
  = find (fun p => js_eqb (name p) (js "p3"))
      (rev (map provider_n [0; 1; 2; 3; 4; 5; 6; 7; 8; 9; 10]%N)).
Proof.
  apply (last_configured_provider_wins eleven_config
           (map provider_n [0; 1; 2; 3; 4; 5; 6; 7; 8; 9; 10]%N) (js "p3")).
  - reflexivity.
  - discriminate.
Defined.

(* ===================================================================== *)
(** * Further properties of the client cache *)
(* ===================================================================== *)

Lemma callAll_invariant (P : ProviderState -> Prop) (Providers : ProviderMap) :
  (forall now st providerName,
     P st -> P (snd (getProviderInstance Providers now st providerName))) ->
  forall calls st, P st -> P (callAll Providers st calls).
Proof.
  intros Hstep. induction calls as [|[now providerName] rest IH]; intros st H;
    [exact H|].
  simpl. apply IH. now apply Hstep.
Qed.

Lemma key_in_In (k : jsstring) (keys : list jsstring) :
  key_in k keys = true <-> In k keys.
Proof.
  unfold key_in. rewrite existsb_exists. split.
  - intros [x [Hin E]]. apply js_eqb_eq in E. now subst.
  - intros H. exists k. split; [exact H|apply js_eqb_refl].
Qed.

Lemma lru_find_none_keys (c : LRUCache) (k : jsstring) :
  lru_find c k = None <-> ~ In k (cache_keys c).
Proof.
  rewrite <- key_in_In, key_in_find.
  destruct (lru_find c k); split.
  - discriminate.
  - intros H. exfalso. now apply H.
  - intros _. discriminate.
  - reflexivity.
Qed.

Lemma lru_touch_NoDup (keys : list jsstring) (k : jsstring) :
  NoDup keys -> NoDup (lru_touch keys k).
Proof.
  intros Hnd. unfold lru_touch.
  assert (Hsnoc : forall l, NoDup l -> ~ In k l -> NoDup (l ++ [k])).
  { intros l Hl Hk. apply NoDup_app; [exact Hl|repeat constructor; auto|].
    intros x Hx [<-|[]]. contradiction. }
  destruct (key_in k keys) eqn:E.
  - apply Hsnoc; [now apply NoDup_filter|].
    intros H. apply filter_In in H as [_ H].
    now rewrite js_eqb_refl in H.
  - assert (Hk : ~ In k keys)
      by (intros H; apply key_in_In in H; congruence).
    destruct (Nat.leb lru_max (List.length keys)); [|now apply Hsnoc].
    destruct keys as [|x keys]; simpl; [now apply (Hsnoc [])|].
    inversion Hnd; subst. apply Hsnoc; [assumption|].
    intros H. apply Hk. now right.
Qed.

Lemma lru_delete_in (c : LRUCache) (k : jsstring) (e : CacheEntry) :
  In e (lru_delete c k) -> In e c.
Proof. intros H. now apply filter_In in H. Qed.

Lemma evict_in (c : LRUCache) (e : CacheEntry) :
  In e (if Nat.leb lru_max (List.length c) then tl c else c) -> In e c.
Proof.
  destruct (Nat.leb lru_max (List.length c)); [|auto].
  destruct c; simpl; auto.
Qed.

(** One lookup: either the cache keeps its entries, or it holds some of
    them and one entry made now for the provider. *)
Lemma getProviderInstance_entries (Providers : ProviderMap) (now : N)
  (st : ProviderState) (providerName : jsstring) (e : CacheEntry) :
  In e (providerCache (snd (getProviderInstance Providers now st providerName))) ->
  (In e (providerCache st) /\
   constructed st
   <= constructed (snd (getProviderInstance Providers now st providerName)))
  \/ exists provider,
       map_get Providers providerName = Some provider /\
       e = mkCacheEntry (name provider)
             (mkOpenAI (constructed st) (api_base_url provider)
                (api_key provider)) now /\
       constructed (snd (getProviderInstance Providers now st providerName))
       = S (constructed st).
Proof.
  destruct (map_get Providers providerName) as [provider|] eqn:Hp.
  - destruct (lru_find (providerCache st) (name provider)) as [e0|] eqn:Hf.
    + destruct (isStale now e0) eqn:Hs.
      * rewrite (getProviderInstance_stale _ _ _ _ _ _ Hp Hf Hs).
        cbn [snd providerCache constructed]. intros H.
        apply in_app_or in H as [H|[<-|[]]].
        -- left. split; [|lia].
           eapply lru_delete_in, evict_in, H.
        -- right. now exists provider.
      * rewrite (getProviderInstance_hit _ _ _ _ _ _ Hp Hf Hs).
        cbn [snd providerCache constructed]. intros H. left. split; [|lia].
        apply in_app_or in H as [H|[<-|[]]].
        -- eapply lru_delete_in, H.
        -- now apply (lru_find_key _ _ _ Hf).
    + rewrite (getProviderInstance_absent _ _ _ _ _ Hp Hf).
      cbn [snd providerCache constructed]. intros H.
      apply in_app_or in H as [H|[<-|[]]].
      * left. split; [|lia]. eapply evict_in, H.
      * right. now exists provider.
  - rewrite (getProviderInstance_not_found _ _ _ _ Hp). simpl.
    intros H. left. split; [exact H|lia].
Qed.

Lemma cache_ok_step (Providers : ProviderMap) (now : N) (st : ProviderState)
  (providerName : jsstring) :
  cache_ok st ->
  cache_ok (snd (getProviderInstance Providers now st providerName)).
Proof.
  intros [Hnd [Hcap Hids]]. split; [|split].
  - destruct (map_get Providers providerName) as [provider|] eqn:Hp.
    + rewrite (getProviderInstance_keys _ _ _ _ _ Hp Hcap).
      now apply lru_touch_NoDup.
    + now rewrite (getProviderInstance_not_found _ _ _ _ Hp).
  - now apply getProviderInstance_capacity.
  - intros e He.
    apply getProviderInstance_entries in He
      as [[He Hle]|[provider [_ [-> Hc]]]].
    + specialize (Hids e He). lia.
    + rewrite Hc. simpl. lia.
Qed.

Lemma reachable_cache_ok_aux (Providers : ProviderMap)
  (calls : list (N * jsstring)) :
  cache_ok (callAll Providers newProviderState calls).
Proof.
  apply (callAll_invariant cache_ok Providers).
  - intros now st providerName. apply cache_ok_step.
  - split; [constructor|]. split; [simpl; unfold lru_max; lia|].
    intros e [].
Qed.

(** In every state reached from the empty cache no provider name is cached
    twice, the cache holds at most ten entries, and every cached client is
    one that was constructed before. *)
Theorem reachable_cache_ok (Providers : ProviderMap)
  (calls : list (N * jsstring)) :
  NoDup (cache_keys
           (providerCache (callAll Providers newProviderState calls))) /\
  List.length (providerCache (callAll Providers newProviderState calls)) <= 10 /\
  forall e,
    In e (providerCache (callAll Providers newProviderState calls)) ->
    client_id (ce_value e)
    < constructed (callAll Providers newProviderState calls).
Proof. exact (reachable_cache_ok_aux Providers calls). Qed.

Lemma lru_delete_one (c : LRUCache) (k : jsstring) (e : CacheEntry) :
  NoDup (cache_keys c) ->
  lru_find c k = Some e ->
  S (List.length (lru_delete c k)) = List.length c.
Proof.
  induction c as [|x c IH]; simpl; [discriminate|].
  intros Hnd Hf. inversion Hnd as [|? ? Hx Hnd']; subst.
  destruct (js_eqb (ce_key x) k) eqn:E; simpl.
  - apply js_eqb_eq in E. subst k.
    fold (lru_delete c (ce_key x)).
    rewrite lru_delete_none; [reflexivity|].
    now apply lru_find_none_keys.
  - f_equal. now apply IH.
Qed.

(** A lookup that does not find a live entry constructs: the client it
    returns is a new one, different from every client in the cache; and
    when it replaces an entry that has expired, the cache keeps its
    size. *)
Theorem miss_constructs_fresh_client (Providers : ProviderMap)
  (calls : list (N * jsstring)) (now : N) (providerName : jsstring)
  (provider : ModelProvider) :
  map_get Providers providerName = Some provider ->
  (forall e,
     lru_find (providerCache (callAll Providers newProviderState calls))
       (name provider) = Some e -> isStale now e = true) ->
  fst (getProviderInstance Providers now
         (callAll Providers newProviderState calls) providerName)
  = inr (mkOpenAI (constructed (callAll Providers newProviderState calls))
           (api_base_url provider) (api_key provider)) /\
  (forall e,
     In e (providerCache (callAll Providers newProviderState calls)) ->
     client_id (ce_value e)
     <> constructed (callAll Providers newProviderState calls)) /\
  (forall e,
     lru_find (providerCache (callAll Providers newProviderState calls))
       (name provider) = Some e ->
     List.length
       (providerCache
          (snd (getProviderInstance Providers now
                  (callAll Providers newProviderState calls) providerName)))
     = List.length (providerCache (callAll Providers newProviderState calls))).
Proof.
  intros Hp Hstale.
  destruct (reachable_cache_ok_aux Providers calls) as [Hnd [Hcap Hids]].
  set (st := callAll Providers newProviderState calls) in *.
  split; [|split].
  - destruct (lru_find (providerCache st) (name provider)) as [e|] eqn:Hf.
    + now rewrite (getProviderInstance_stale _ _ _ _ _ _ Hp Hf (Hstale e eq_refl)).
    + now rewrite (getProviderInstance_absent _ _ _ _ _ Hp Hf).
  - intros e He. specialize (Hids e He). lia.
  - intros e Hf.
    rewrite (getProviderInstance_stale _ _ _ _ _ _ Hp Hf (Hstale e Hf)).
    cbn [snd providerCache].
    pose proof (lru_delete_one _ _ _ Hnd Hf) as Hone.
    replace (Nat.leb lru_max
               (List.length (lru_delete (providerCache st) (name provider))))
      with false by (symmetry; apply Nat.leb_gt; lia).
    rewrite length_app. simpl. lia.
Qed.

Lemma miss_constructs_fresh_client_witness :
  fst (getProviderInstance eleven_providers 7200002
         (callAll eleven_providers newProviderState [(1%N, js "p0")]) (js "p0"))
  = inr (mkOpenAI
           (constructed
              (callAll eleven_providers newProviderState [(1%N, js "p0")]))
           (api_base_url (provider_n 0)) (api_key (provider_n 0))) /\
  (forall e,
     In e (providerCache
             (callAll eleven_providers newProviderState [(1%N, js "p0")])) ->
     client_id (ce_value e)
     <> constructed
          (callAll eleven_providers newProviderState [(1%N, js "p0")])) /\
  (forall e,
     lru_find
       (providerCache
          (callAll eleven_providers newProviderState [(1%N, js "p0")]))
       (name (provider_n 0)) = Some e ->
     List.length
       (providerCache
          (snd (getProviderInstance eleven_providers 7200002
                  (callAll eleven_providers newProviderState [(1%N, js "p0")])
                  (js "p0"))))
     = List.length
         (providerCache
            (callAll eleven_providers newProviderState [(1%N, js "p0")]))).
Proof.
  apply (miss_constructs_fresh_client eleven_providers [(1%N, js "p0")]
           7200002%N (js "p0") (provider_n 0)).
  - reflexivity.
  - intros e H. vm_compute in H. inversion H. reflexivity.
Defined.

(** In a registry built by [run], two names that resolve to providers with
    the same [name] resolve to the same provider. *)
Lemma registry_name_determines (config : Config) (k1 k2 : jsstring)
  (p1 p2 : ModelProvider) :
  map_get (buildProviders config) k1 = Some p1 ->
  map_get (buildProviders config) k2 = Some p2 ->
  name p1 = name p2 ->
  p1 = p2.
Proof.
  assert (Hvia : exists R : ProviderMap,
            forall k p, map_get (buildProviders config) k = Some p ->
                        map_get R (name p) = Some p).
  { unfold buildProviders.
    destruct (opt_truthy (OPENAI_API_KEY config)
              && opt_truthy (OPENAI_BASE_URL config)
              && opt_truthy (OPENAI_MODEL config)).
    - eexists. intros k p H.
      destruct (js_eqb (js "default") k) eqn:E.
      + apply js_eqb_eq in E. subst k. rewrite map_get_set_same in H.
        inversion H; subst p. simpl name. apply map_get_set_same.
      + apply js_eqb_neq in E. pose proof H as H'.
        rewrite map_get_set_other in H' by exact E.
        apply registerProviders_get_name in H'. rewrite H'. exact H.
    - destruct (registerProviders config) as [|[k0 p0] rest] eqn:ER.
      + exists []. intros k p H. discriminate.
      + exists ((k0, p0) :: rest). intros k p H.
        assert (Hk0 : name p0 = k0).
        { apply (registerProviders_get_name config). rewrite ER. simpl.
          now rewrite js_eqb_refl. }
        destruct (js_eqb (js "default") k) eqn:E.
        * apply js_eqb_eq in E. subst k. rewrite map_get_set_same in H.
          inversion H; subst p. rewrite Hk0. simpl. now rewrite js_eqb_refl.
        * apply js_eqb_neq in E.
          rewrite map_get_set_other in H by exact E.
          pose proof H as H'. rewrite <- ER in H'.
          apply registerProviders_get_name in H'. rewrite H'. exact H. }
  destruct Hvia as [R HR]. intros H1 H2 Hn.
  apply HR in H1. apply HR in H2. rewrite Hn in H1. congruence.
Qed.

Lemma clients_match_step (config : Config) (now : N) (st : ProviderState)
  (providerName : jsstring) :
  clients_match (buildProviders config) st ->
  clients_match (buildProviders config)
    (snd (getProviderInstance (buildProviders config) now st providerName)).
Proof.
  intros Hinv e k p He Hk Hname.
  apply getProviderInstance_entries in He
    as [[He _]|[provider [Hp [-> _]]]].
  - now apply (Hinv e k p).
  - simpl in *.
    rewrite (registry_name_determines config k providerName p provider Hk Hp
               Hname).
    split; reflexivity.
Qed.

(** Whatever lookups came before, the client a lookup returns has the base
    URL and the key of the provider the name resolves to: the cache never
    hands out a client made for another provider. *)
Theorem returned_client_matches_provider (config : Config)
  (calls : list (N * jsstring)) (now : N) (providerName : jsstring)
  (provider : ModelProvider) (openai : OpenAI) :
  map_get (buildProviders config) providerName = Some provider ->
  fst (getProviderInstance (buildProviders config) now
         (callAll (buildProviders config) newProviderState calls) providerName)
  = inr openai ->
  baseURL openai = api_base_url provider /\ apiKey openai = api_key provider.
Proof.
  intros Hp Hres.
  assert (Hinv : clients_match (buildProviders config)
                   (callAll (buildProviders config) newProviderState calls)).
  { apply (callAll_invariant (clients_match (buildProviders config))).
    - intros t st n. apply clients_match_step.
    - intros e k p []. }
  set (st := callAll (buildProviders config) newProviderState calls) in *.
  destruct (lru_find (providerCache st) (name provider)) as [e|] eqn:Hf.
  - destruct (lru_find_key _ _ _ Hf) as [Hkey Hin].
    destruct (isStale now e) eqn:Hs.
    + rewrite (getProviderInstance_stale _ _ _ _ _ _ Hp Hf Hs) in Hres.
      simpl in Hres. inversion Hres. split; reflexivity.
    + rewrite (getProviderInstance_hit _ _ _ _ _ _ Hp Hf Hs) in Hres.
      simpl in Hres. inversion Hres; subst openai.
      apply (Hinv e providerName provider Hin Hp). now rewrite Hkey.
  - rewrite (getProviderInstance_absent _ _ _ _ _ Hp Hf) in Hres.
    simpl in Hres. inversion Hres. split; reflexivity.
Qed.

Lemma returned_client_matches_provider_witness :
  baseURL (mkOpenAI 0 (js "https://host/0") (js "key"))
    = api_base_url (provider_n 0)
  /\ apiKey (mkOpenAI 0 (js "https://host/0") (js "key"))
     = api_key (provider_n 0).
Proof.
  apply (returned_client_matches_provider eleven_config
           [(0%N, js "p0"); (1%N, js "p1")] 5%N (js "default") (provider_n 0)
           (mkOpenAI 0 (js "https://host/0") (js "key")));
    reflexivity.
Defined.

(** Using a client does not extend its life: for a client constructed at
    a clock time other than 0, a lookup made more than two hours after the
    construction constructs a new one, also when the client was looked up,
    and found, in between. *)
Theorem hits_do_not_extend_life (Providers : ProviderMap) (t0 t1 t2 : N)
  (st : ProviderState) (providerName : jsstring) (provider : ModelProvider) :
  map_get Providers providerName = Some provider ->
  lru_find (providerCache st) (name provider) = None ->
  t0 <> 0%N ->
  (t1 - t0 <= lru_ttl)%N ->
  (lru_ttl < t2 - t0)%N ->
  fst (getProviderInstance Providers t1
         (snd (getProviderInstance Providers t0 st providerName)) providerName)
  = inr (mkOpenAI (constructed st) (api_base_url provider) (api_key provider))
  /\
  fst (getProviderInstance Providers t2
         (snd (getProviderInstance Providers t1
                 (snd (getProviderInstance Providers t0 st providerName))
                 providerName))
         providerName)
  = inr (mkOpenAI (S (constructed st)) (api_base_url provider)
           (api_key provider)).
Proof.
  intros Hp Hf Ht0 Ht1 Ht2.
  rewrite (getProviderInstance_absent _ _ _ _ _ Hp Hf). cbn [snd].
  set (openai := mkOpenAI (constructed st) (api_base_url provider)
                   (api_key provider)).
  set (e := mkCacheEntry (name provider) openai t0).
  set (c1 := (if Nat.leb lru_max (List.length (providerCache st))
              then tl (providerCache st) else providerCache st) ++ [e]).
  assert (Hfind1 : lru_find c1 (name provider) = Some e).
  { apply (lru_find_last _ e). apply lru_find_evict_none, Hf. }
  assert (Hlive : isStale t1 e = false) by (now apply isStale_within_ttl).
  assert (Hstale : isStale t2 e = true) by (now apply isStale_after_ttl).
  rewrite (getProviderInstance_hit Providers t1
             (mkProviderState c1 (S (constructed st))) providerName provider e
             Hp Hfind1 Hlive).
  cbn [fst snd constructed providerCache]. split; [reflexivity|].
  assert (Hfind2 : lru_find (lru_delete c1 (name provider) ++ [e])
                     (name provider) = Some e).
  { apply (lru_find_last _ e). apply lru_find_delete. }
  rewrite (getProviderInstance_stale Providers t2
             (mkProviderState (lru_delete c1 (name provider) ++ [e])
                (S (constructed st)))
             providerName provider e Hp Hfind2 Hstale).
  reflexivity.
Qed.

Lemma hits_do_not_extend_life_witness :
  fst (getProviderInstance eleven_providers 7000000
         (snd (getProviderInstance eleven_providers 1 newProviderState
                 (js "p0"))) (js "p0"))
  = inr (mkOpenAI (constructed newProviderState) (api_base_url (provider_n 0))
           (api_key (provider_n 0)))
  /\
  fst (getProviderInstance eleven_providers 7300000
         (snd (getProviderInstance eleven_providers 7000000
                 (snd (getProviderInstance eleven_providers 1 newProviderState
                         (js "p0")))
                 (js "p0")))
         (js "p0"))
  = inr (mkOpenAI (S (constructed newProviderState))
           (api_base_url (provider_n 0)) (api_key (provider_n 0))).
Proof.
  apply (hits_do_not_extend_life eleven_providers 1 7000000 7300000
           newProviderState (js "p0") (provider_n 0)).
  - reflexivity.
  - reflexivity.
  - discriminate.
  - unfold lru_ttl. lia.
  - unfold lru_ttl. lia.
Defined.

(* ===================================================================== *)
(** * Further properties of the streaming decoder *)
(* ===================================================================== *)

Lemma startsWith_snoc (prefix : jsstring) (c : N) : forall s,
  ~ In c prefix ->
  startsWith (s ++ [c]) prefix = startsWith s prefix.
Proof.
  induction prefix as [|p prefix IH]; intros s Hc.
  - now destruct s.
  - destruct s as [|x s]; simpl.
    + replace (N.eqb c p) with false; [reflexivity|].
      symmetry. apply N.eqb_neq. intros ->. apply Hc. now left.
    + rewrite IH; [reflexivity|]. intros H. apply Hc. now right.
Qed.

Lemma startsWith_app (prefix s : jsstring) :
  startsWith (prefix ++ s) prefix = true.
Proof.
  induction prefix as [|c prefix IH]; [now destruct s|].
  simpl. now rewrite N.eqb_refl.
Qed.

Lemma startsWith_length (prefix : jsstring) : forall s,
  startsWith s prefix = true -> List.length prefix <= List.length s.
Proof.
  induction prefix as [|p prefix IH]; intros s H; simpl; [lia|].
  destruct s as [|x s]; simpl in *; [discriminate|].
  apply andb_true_iff in H as [_ H]. apply IH in H. lia.
Qed.

Lemma trimStart_snoc (s : jsstring) (c : N) :
  trimStart (s ++ [c])
  = if forallb is_whitespace s then trimStart [c] else trimStart s ++ [c].
Proof.
  induction s as [|x s IH]; [reflexivity|]. simpl.
  destruct (is_whitespace x); simpl; [exact IH|reflexivity].
Qed.

(** White space at the end does not survive [trim]. *)
Lemma trim_snoc_whitespace (s : jsstring) (c : N) :
  is_whitespace c = true -> trim (s ++ [c]) = trim s.
Proof.
  intros Hc. unfold trim, trimEnd. rewrite trimStart_snoc.
  destruct (forallb is_whitespace s) eqn:E.
  - simpl. rewrite Hc. apply trimStart_empty in E. now rewrite E.
  - rewrite rev_app_distr. simpl. now rewrite Hc.
Qed.

Lemma decodeByte_ascii (d : TextDecoder) (b : N) :
  bytes_needed d = 0%N -> (b <= 127)%N ->
  decodeByte d b
  = ([b], mkTextDecoder (code_point d) (bytes_seen d) (bytes_needed d)
            (lower_boundary d) (upper_boundary d) true).
Proof.
  intros Hd Hb127.
  assert (Hr : in_range 0 127 b = true).
  { unfold in_range. apply andb_true_iff. split; apply N.leb_le; lia. }
  assert (Hne : N.eqb b 65279 = false) by (apply N.eqb_neq; lia).
  assert (Hcu : code_units b = [b]).
  { unfold code_units.
    replace (b <? 65536)%N with true; [reflexivity|].
    symmetry. apply N.ltb_lt. lia. }
  unfold decodeByte, utf8_handler. rewrite Hd. cbn [N.eqb].
  unfold utf8_lead. rewrite Hr. cbn [serialize].
  destruct (bom_seen d); rewrite ?Hne, ?Hcu; rewrite ?Hd; reflexivity.
Qed.

(** ASCII bytes decode to themselves, whatever was decoded before, as
    long as no character is pending. *)
Lemma decode_ascii (bytes : list N) : forall d,
  bytes_needed d = 0%N ->
  (forall b, In b bytes -> (b <= 127)%N) ->
  fst (decode d bytes) = bytes /\ bytes_needed (snd (decode d bytes)) = 0%N.
Proof.
  induction bytes as [|b bytes IH]; intros d Hd Hb; [now split|].
  simpl decode.
  rewrite (decodeByte_ascii d b Hd (Hb b (or_introl eq_refl))).
  destruct (IH (mkTextDecoder (code_point d) (bytes_seen d) (bytes_needed d)
                  (lower_boundary d) (upper_boundary d) true) Hd
              (fun x Hx => Hb x (or_intror Hx))) as [H1 H2].
  destruct (decode _ bytes) as [out d2]. simpl in *. now subst.
Qed.

Lemma split_newline_line (s rest : jsstring) :
  (forall c, In c s -> c <> newline) ->
  split_newline (s ++ newline :: rest) = s :: split_newline rest.
Proof.
  induction s as [|c s IH]; intros H.
  - reflexivity.
  - cbn [app split_newline]. replace (N.eqb c newline) with false.
    + rewrite IH; [reflexivity|]. intros x Hx. apply H. now right.
    + symmetry. apply N.eqb_neq. apply H. now left.
Qed.

Section DecoderMore.

Variable Json : Type.
Variable JSON_parse : jsstring -> option Json.

(** Only the bytes of the body count, not the way they arrive: two
    sequences of reads with the same concatenation, empty reads and cuts
    inside a character included, yield the same events. *)
Theorem reads_with_same_bytes_yield_same (reads1 reads2 : list (list N)) :
  List.concat reads1 = List.concat reads2 ->
  asyncIterator JSON_parse reads1 = asyncIterator JSON_parse reads2.
Proof.
  intros H. rewrite (asyncIterator_lines Json JSON_parse reads1).
  rewrite (asyncIterator_lines Json JSON_parse reads2). now rewrite H.
Qed.

(** A carriage return at the end of a line changes nothing: the events of
    a line are those of the line without it, so a body with CRLF line ends
    decodes as the same body with LF line ends. *)
Theorem carriage_return_ignored (line : jsstring) :
  processLine JSON_parse (line ++ [carriage_return])
  = processLine JSON_parse line.
Proof.
  rewrite !processLine_by_prefix.
  rewrite startsWith_snoc
    by (intros H; repeat (destruct H as [H|H]; [discriminate|]);
        destruct H).
  destruct (startsWith line (js "data: ")) eqn:E; [|reflexivity].
  apply startsWith_length in E. unfold slice.
  rewrite skipn_app.
  replace (6 - List.length line) with 0 by (simpl in E; lia).
  change (skipn 0 [carriage_return]) with [carriage_return].
  rewrite trim_snoc_whitespace by reflexivity. reflexivity.
Qed.

Lemma dataLines_events (payloads : list (list N)) :
  (forall payload b, In payload payloads -> In b payload -> b <> newline) ->
  flat_map (processLine JSON_parse)
    (split_newline (flat_map dataLine payloads))
  = flat_map (payloadEvents Json JSON_parse) payloads.
Proof.
  induction payloads as [|p ps IH]; intros H; [reflexivity|].
  replace (flat_map dataLine (p :: ps))
    with ((ascii_bytes "data: " ++ p) ++ newline :: flat_map dataLine ps)
    by (cbn [flat_map]; unfold dataLine; repeat rewrite <- app_assoc;
        reflexivity).
  rewrite split_newline_line.
  - cbn [flat_map]. rewrite IH by (intros q b Hq; apply H; now right).
    f_equal. rewrite processLine_by_prefix.
    assert (Hs : startsWith (ascii_bytes "data: " ++ p) (js "data: ") = true)
      by exact (startsWith_app (js "data: ") p).
    assert (Hp : slice 6 (ascii_bytes "data: " ++ p) = p) by reflexivity.
    rewrite Hs, Hp. reflexivity.
  - intros c Hc. apply in_app_or in Hc as [Hc|Hc].
    + repeat (destruct Hc as [<-|Hc]; [discriminate|]). destruct Hc.
    + apply (H p c); [now left|exact Hc].
Qed.

(** A body made of data lines with ASCII payloads, read in any pieces,
    yields what the payloads yield, one after the other in the order of
    the lines: nothing for [[DONE]] and for a payload that does not parse,
    the parsed value otherwise. *)
Theorem data_lines_yield_in_order (payloads : list (list N))
  (reads : list (list N)) :
  (forall payload b, In payload payloads -> In b payload ->
                     (b <= 127)%N /\ b <> newline) ->
  List.concat reads = flat_map dataLine payloads ->
  asyncIterator JSON_parse reads
  = flat_map (payloadEvents Json JSON_parse) payloads.
Proof.
  intros Hascii Hbody.
  rewrite asyncIterator_lines, Hbody.
  assert (Hbytes : forall b, In b (flat_map dataLine payloads) -> (b <= 127)%N).
  { intros b Hb. apply in_flat_map in Hb as [p [Hp Hb]].
    unfold dataLine in Hb. apply in_app_or in Hb as [Hb|Hb].
    - repeat (destruct Hb as [<-|Hb]; [vm_compute; discriminate|]).
      destruct Hb.
    - apply in_app_or in Hb as [Hb|[<-|[]]].
      + now apply (Hascii p b).
      + vm_compute. discriminate. }
  rewrite (proj1 (decode_ascii _ newTextDecoder eq_refl Hbytes)).
  apply dataLines_events. intros p b Hp Hb. now apply (Hascii p b).
Qed.

End DecoderMore.

Lemma reads_with_same_bytes_yield_same_witness :
  asyncIterator sample_parse [firstn 3 line_a1_newline; []; skipn 3 line_a1_newline]
  = asyncIterator sample_parse [line_a1_newline].
Proof.
  apply (reads_with_same_bytes_yield_same SampleJson sample_parse
           [firstn 3 line_a1_newline; []; skipn 3 line_a1_newline]
           [line_a1_newline]).
  reflexivity.
Defined.

Lemma data_lines_yield_in_order_witness :
  asyncIterator sample_parse
    [dataLine payload_a1; dataLine (js "[DONE]") ++ dataLine payload_a1]
  = flat_map (payloadEvents SampleJson sample_parse)
      [payload_a1; js "[DONE]"; payload_a1].
Proof.
  apply (data_lines_yield_in_order SampleJson sample_parse
           [payload_a1; js "[DONE]"; payload_a1]
           [dataLine payload_a1; dataLine (js "[DONE]") ++ dataLine payload_a1]).
  - intros payload b Hp Hb.
    repeat (destruct Hp as [<-|Hp];
            [repeat (destruct Hb as [<-|Hb];
                     [split; [vm_compute; discriminate|discriminate]|]);
             destruct Hb|]).
    destruct Hp.
  - reflexivity.
Defined.

(* ===================================================================== *)
(** * The list sent upstream is well paired *)
(* ===================================================================== *)

Lemma validateFrom_owner_ext (ms : list Msg) : forall owner owner',
  (forall t, owner_matches owner t = owner_matches owner' t) ->
  validateFrom owner ms = validateFrom owner' ms.
Proof.
  induction ms as [|m rest IH]; intros owner owner' H; [reflexivity|].
  simpl. destruct (is_assistant m), (tool_calls m); try reflexivity;
    destruct (is_tool m); try reflexivity;
    rewrite (H m), (IH owner owner' H); reflexivity.
Qed.

Lemma validateFrom_other_prefix (pre ms : list Msg) : forall owner,
  (forall m, In m pre -> other_role m = true) ->
  (forall t, owner_matches owner t = false) ->
  validateFrom owner (pre ++ ms) = pre ++ validateFrom None ms.
Proof.
  induction pre as [|s pre IH]; intros owner Hpre Howner.
  - simpl. now apply validateFrom_owner_ext.
  - assert (Hs : other_role s = true) by (apply Hpre; now left).
    unfold other_role in Hs. apply andb_true_iff in Hs as [Ht Ha].
    apply negb_true_iff in Ht. apply negb_true_iff in Ha.
    simpl. rewrite Ha, Ht. f_equal. apply IH.
    + intros m Hm. apply Hpre. now right.
    + intros t. unfold owner_matches. now rewrite Ha.
Qed.

Lemma annotateMessage_tool (m : Msg) :
  is_tool (annotateMessage m) = is_tool m /\
  is_assistant (annotateMessage m) = is_assistant m.
Proof.
  unfold is_tool, is_assistant.
  now rewrite (proj1 (annotateMessage_keys m)).
Qed.

Lemma immediate_annotated (rest : list Msg) (m : Msg) (call : ToolCall) :
  hasImmediateToolMessage (immediateToolMessages (rest ++ [annotateMessage m]))
    call
  = hasImmediateToolMessage (immediateToolMessages (rest ++ [m])) call.
Proof.
  induction rest as [|x rest IH]; simpl.
  - rewrite (proj1 (annotateMessage_tool m)).
    destruct (is_tool m); [|reflexivity]. simpl. unfold id_matches.
    now rewrite (proj2 (proj2 (annotateMessage_keys m))).
  - destruct (is_tool x); [|reflexivity]. simpl. now rewrite IH.
Qed.

(** A well paired list stays well paired under the cache annotation. *)
Lemma annotateLast_keeps_fixpoint (l : list Msg) :
  validateOpenAIToolCalls l = l ->
  validateOpenAIToolCalls (annotateLast l) = annotateLast l.
Proof.
  intros Hfix. destruct l as [|m init _] using rev_ind; [reflexivity|].
  rewrite annotateLast_snoc.
  pose proof (validate_fixpoint_at _ Hfix) as Hat.
  rewrite validate_flat_map. apply flat_map_singletons.
  intros i x Hi. simpl.
  destruct (Nat.lt_ge_cases i (List.length init)) as [Hlt|Hge].
  - (* a message in front of the last *)
    rewrite nth_error_app1 in Hi by exact Hlt.
    assert (Hi0 : nth_error (init ++ [m]) i = Some x)
      by (now rewrite nth_error_app1 by exact Hlt).
    specialize (Hat i x Hi0).
    assert (Hi1 : nth_error (init ++ [annotateMessage m]) i = Some x)
      by (now rewrite nth_error_app1 by exact Hlt).
    assert (Hfirst : firstn i (init ++ [annotateMessage m])
                     = firstn i (init ++ [m])).
    { rewrite !firstn_app.
      replace (i - List.length init) with 0 by lia. reflexivity. }
    destruct (is_tool x) eqn:Ht.
    + rewrite (validateAt_tool _ i x Hi1 Ht), Hfirst.
      now rewrite <- (validateAt_tool _ i x Hi0 Ht).
    + destruct (is_assistant x) eqn:Ha; [|apply validateAt_other; auto].
      destruct (tool_calls x) as [calls|] eqn:Hc;
        [|apply validateAt_other; auto].
      apply (validateAt_assistant_kept _ i x calls Hi1 Ha Hc).
      apply (validateAt_assistant_kept _ i x calls Hi0 Ha Hc) in Hat
        as [Hne Hall].
      split; [exact Hne|]. intros call Hin. specialize (Hall call Hin).
      rewrite skipn_app in *.
      replace (S i - List.length init) with 0 in * by lia.
      simpl skipn in *. now rewrite immediate_annotated.
  - (* the last message *)
    assert (Hlen : i = List.length init).
    { assert (i < List.length (init ++ [annotateMessage m]))
        by (apply nth_error_Some; congruence).
      rewrite length_app in *. simpl in *. lia. }
    subst i. rewrite nth_error_app2, Nat.sub_diag in Hi by lia.
    simpl in Hi. inversion Hi; subst x.
    assert (Hi0 : nth_error (init ++ [m]) (List.length init) = Some m)
      by (now rewrite nth_error_app2, Nat.sub_diag by lia).
    specialize (Hat _ _ Hi0).
    assert (Hi1 : nth_error (init ++ [annotateMessage m]) (List.length init)
                  = Some (annotateMessage m))
      by (now rewrite nth_error_app2, Nat.sub_diag by lia).
    destruct (annotateMessage_tool m) as [Ht' Ha'].
    destruct (annotateMessage_keys m) as [_ [Hc' Hid']].
    assert (Hfirst : firstn (List.length init) (init ++ [annotateMessage m])
                     = firstn (List.length init) (init ++ [m])).
    { rewrite !firstn_app, Nat.sub_diag. reflexivity. }
    destruct (is_tool m) eqn:Ht.
    + rewrite (validateAt_tool _ _ _ Hi1 Ht'), Hfirst.
      rewrite (validateAt_tool _ _ _ Hi0 Ht) in Hat.
      replace (owner_matches
                 (nearestNonTool (firstn (List.length init) (init ++ [m])))
                 (annotateMessage m))
        with (owner_matches
                (nearestNonTool (firstn (List.length init) (init ++ [m]))) m).
      * destruct (owner_matches _ m); [reflexivity|discriminate].
      * unfold owner_matches, some_call_matches, id_matches.
        now rewrite Hid'.
    + destruct (is_assistant m) eqn:Ha.
      * destruct (tool_calls m) as [calls|] eqn:Hc.
        -- exfalso.
           apply (validateAt_assistant_kept _ _ m calls Hi0 Ha Hc) in Hat
             as [Hne Hall].
           destruct calls as [|c calls]; [congruence|].
           specialize (Hall c (or_introl eq_refl)).
           rewrite skipn_all2 in Hall
             by (rewrite length_app; simpl; lia).
           discriminate.
        -- apply validateAt_other; [exact Hi1|congruence|].
           right. congruence.
      * apply validateAt_other; [exact Hi1|congruence|].
        left. congruence.
Qed.

Section Outbound.

Variable Json : Type.
Variable JSON_stringify : Json -> jsstring.
Variable JSON_stringify_part : ContentPart Json -> jsstring.

(** Whatever the inbound body, the message list [formatRequest] puts in
    the outbound request is well paired: the validator would return it
    unchanged, system messages and cache annotation included; so in it
    every tool message answers a call of the nearest message in front of
    it that is not a tool message. *)
Theorem outbound_messages_well_paired (body : Body Json) (final : list Msg) :
  formatRequestMessages JSON_stringify JSON_stringify_part body = inr final ->
  validateOpenAIToolCalls final = final /\
  forall i m,
    nth_error final i = Some m -> is_tool m = true ->
    exists k a calls call,
      k < i /\ nth_error final k = Some a /\
      (forall j mj, k < j < i -> nth_error final j = Some mj ->
                    is_tool mj = true) /\
      is_assistant a = true /\ tool_calls a = Some calls /\
      In call calls /\ tool_call_id m = Some (tc_id call).
Proof.
  intros H. unfold formatRequestMessages, assembledMessages in H.
  destruct (openAIMessages JSON_stringify JSON_stringify_part body)
    as [e|translated]; [discriminate|].
  inversion H; subst final. clear H.
  assert (Hfix : validateOpenAIToolCalls
                   (annotateLast
                      (systemMessages (system body)
                       ++ validateOpenAIToolCalls translated))
                 = annotateLast
                     (systemMessages (system body)
                      ++ validateOpenAIToolCalls translated)).
  { apply annotateLast_keeps_fixpoint.
    rewrite validate_eq_validateFrom, validateFrom_other_prefix.
    - rewrite <- !validate_eq_validateFrom. now rewrite validate_idempotent.
    - intros m Hm. apply systemMessages_shape in Hm as [t ->]. reflexivity.
    - reflexivity. }
  split; [exact Hfix|].
  intros i m Hi Ht.
  pose proof (validate_fixpoint_at _ Hfix i m Hi) as Hkept.
  rewrite (validateAt_tool _ i m Hi Ht) in Hkept.
  apply owner_matches_position.
  - apply Nat.lt_le_incl. apply nth_error_Some. congruence.
  - destruct (owner_matches _ m); [reflexivity|discriminate].
Qed.

End Outbound.

Lemma outbound_messages_well_paired_witness :
  validateOpenAIToolCalls
    [mkMsg (js "assistant") CNull
       (Some [mkToolCall (js "t1") (js "f") payload_a1]) None;
     mkMsg (js "tool") CUndefined None (Some (js "t1"))]
  = [mkMsg (js "assistant") CNull
       (Some [mkToolCall (js "t1") (js "f") payload_a1]) None;
     mkMsg (js "tool") CUndefined None (Some (js "t1"))]
  /\
  forall i m,
    nth_error
      [mkMsg (js "assistant") CNull
         (Some [mkToolCall (js "t1") (js "f") payload_a1]) None;
       mkMsg (js "tool") CUndefined None (Some (js "t1"))] i = Some m ->
    is_tool m = true ->
    exists k a calls call,
      k < i /\
      nth_error
        [mkMsg (js "assistant") CNull
           (Some [mkToolCall (js "t1") (js "f") payload_a1]) None;
         mkMsg (js "tool") CUndefined None (Some (js "t1"))] k = Some a /\
      (forall j mj, k < j < i ->
         nth_error
           [mkMsg (js "assistant") CNull
              (Some [mkToolCall (js "t1") (js "f") payload_a1]) None;
            mkMsg (js "tool") CUndefined None (Some (js "t1"))] j = Some mj ->
         is_tool mj = true) /\
      is_assistant a = true /\ tool_calls a = Some calls /\
      In call calls /\ tool_call_id m = Some (tc_id call).
Proof.
  apply (outbound_messages_well_paired SampleJson sample_stringify
           sample_stringify_part body_result_without_content).
  reflexivity.
Defined.
